(** * myConnect: relay server, relay client and packet capture loop

    A shallow embedding of [src/server/main.py] and
    [src/client/network_manager.py].

    Conventions of the embedding.
    - A Python [str] is a [string], by its UTF-8 text; a Python [bytes]
      object is a [string] too (a sequence of 8-bit characters).
    - A Python [dict] used as a map is a [gmap]; a Python [set] is a [gset].
    - A JSON object is a [gmap string json]: a field holds a [str] or any
      other JSON value.  [d.get(k)] is [d !! k].
    - Awaited I/O is not performed by the model: each function returns the
      list of effects it requests ([action]s) next to the new state, and
      the outcome of an awaited call comes back as an [event]. *)

From Stdlib Require Import ZArith String Ascii List Bool Lia.
From stdpp Require Import base option list gmap strings.

Local Open Scope string_scope.
Local Open Scope Z_scope.
Local Open Scope list_scope.

(** ** Python values used throughout *)

Abbreviation bytes := string (only parsing).

(** A JSON value as [json.loads] returns it: a [str], or anything else
    (null, a boolean, a number, an array, an object), given by the three
    things the code observes of such a value: whether it can be hashed
    (arrays and objects cannot), its truth value, and its [str()]. *)
Inductive json :=
  | JString (s : string)
  | JOther (hashable truthy : bool) (shown : string).

Abbreviation json_object := (gmap string json) (only parsing).

(** Truth value of a [str] or [bytes] object: empty is false. *)
Definition truthy (s : string) : bool :=
  match s with
  | EmptyString => false
  | String _ _ => true
  end.

(** Truth value of an optional [str]: [None] and the empty string are
    false. *)
Definition truthy_opt (o : option string) : bool :=
  match o with
  | None => false
  | Some s => truthy s
  end.

(** [str(x)] of an optional [str]. *)
Definition py_str (o : option string) : string :=
  match o with
  | None => "None"
  | Some s => s
  end.

(** Truth value of [d.get(k)]. *)
Definition truthy_json (o : option json) : bool :=
  match o with
  | None => false
  | Some (JString s) => truthy s
  | Some (JOther _ t _) => t
  end.

(** [str(x)] inside an f-string, for [x = d.get(k)]. *)
Definition shown_json (o : option json) : string :=
  match o with
  | None => "None"
  | Some (JString s) => s
  | Some (JOther _ _ text) => text
  end.

(** The [str] that [d.get(k)] is, if it is one: a value that is not a [str]
    is equal to no [str], so [d.get(k) == 'x'] holds exactly when this is
    [Some "x"]. *)
Definition as_str (o : option json) : option string :=
  match o with
  | Some (JString s) => Some s
  | _ => None
  end.

(** A received text frame, by what [json.loads] makes of it. *)
Inductive frame :=
  | BadJson                     (* raises [json.JSONDecodeError] *)
  | NotAnObject                 (* valid JSON, but not an object: [.get] raises *)
  | Object (d : json_object).

(** ** Hex coding of payloads: [bytes.hex] and [bytes.fromhex] *)

Module Hex.

Definition hexdigits : string := "0123456789abcdef".

Definition digit_char (n : N) : ascii :=
  match String.get (N.to_nat n) hexdigits with
  | Some c => c
  | None => "0"%char
  end.

(** [b.hex()]: two lower-case digits per byte. *)
Fixpoint hex (b : bytes) : string :=
  match b with
  | EmptyString => EmptyString
  | String c rest =>
      let n := N_of_ascii c in
      String (digit_char (N.div n 16)) (String (digit_char (N.modulo n 16)) (hex rest))
  end.

(** Value of one hex digit, either case; [None] for any other character. *)
Definition digit_value (c : ascii) : option N :=
  let n := N_of_ascii c in
  if ((48 <=? n) && (n <=? 57))%N then Some (n - 48)%N
  else if ((97 <=? n) && (n <=? 102))%N then Some (n - 87)%N
  else if ((65 <=? n) && (n <=? 70))%N then Some (n - 55)%N
  else None.

(** ASCII whitespace, which [bytes.fromhex] skips between byte pairs. *)
Definition is_space (c : ascii) : bool :=
  let n := N_of_ascii c in
  (((9 <=? n) && (n <=? 13)) || (n =? 32))%N.

(** [bytes.fromhex(s)]: [None] stands for the [ValueError] raised on an
    odd number of digits or on a character that is not a hex digit. *)
Fixpoint fromhex (s : string) : option bytes :=
  match s with
  | EmptyString => Some EmptyString
  | String c rest =>
      if is_space c then fromhex rest
      else
        match digit_value c, rest with
        | Some top, String c' rest' =>
            match digit_value c' with
            | Some bot =>
                match fromhex rest' with
                | Some b => Some (String (ascii_of_N (top * 16 + bot)) b)
                | None => None
                end
            | None => None
            end
        | _, _ => None
        end
  end.

End Hex.

(** ** Byte-substring test: [needle in haystack] on [bytes] *)

Fixpoint starts_with (needle hay : bytes) : bool :=
  match needle, hay with
  | EmptyString, _ => true
  | String a n', String b h' => if Ascii.eqb a b then starts_with n' h' else false
  | String _ _, EmptyString => false
  end.

Fixpoint bytes_in (needle hay : bytes) : bool :=
  starts_with needle hay ||
  match hay with
  | EmptyString => false
  | String _ h' => bytes_in needle h'
  end.

(** ** The packet capture loop: [NetworkManager.run_windivert] *)

Module Capture.

(** One entry of the configuration's [filters] list.  [windivert_filter]
    and [target_client] are read with [r['...']], the two keyword fields
    with [r.get('...')]. *)
(** An entry of the keyword configuration, by what [kw.encode()] does with
    it: a [str] gives its UTF-8 bytes; anything else (a value that is not a
    [str], or a [str] with a lone surrogate) raises, and is given by its
    truth value. *)
Inductive keyword :=
  | Text (s : string)
  | Unencodable (truthy : bool).

(** [kw.encode()]; [None] when it raises. *)
Definition encode (kw : keyword) : option bytes :=
  match kw with
  | Text s => Some s
  | Unencodable _ => None
  end.

Definition keyword_truthy (kw : keyword) : bool :=
  match kw with
  | Text s => truthy s
  | Unencodable t => t
  end.

(** A list of keywords that are all [str]s. *)
Definition texts (kws : list string) : list keyword := map Text kws.

Record rule := {
  windivert_filter : string;
  target_client : string;
  domain_keywords : option (list keyword);
  domain_keyword : option keyword
}.

(** The attributes of a captured [pydivert.Packet] that the loop reads.
    [udp] is the truth value of [packet.udp]; the ports are [None] when the
    packet has no transport header, and so is [payload]. *)
Record packet := {
  udp : bool;
  src_addr : string;
  src_port : option Z;
  dst_addr : string;
  dst_port : option Z;
  payload : option bytes;
  raw : bytes
}.

Definition flow : Type := string * option Z * string * option Z.

(** The two local sets of [run_windivert]. *)
Record memo := {
  diverted_flows : gset flow;
  diverted_ips : gset string
}.

Definition no_memo : memo := {| diverted_flows := ∅; diverted_ips := ∅ |}.

Definition flow_id (p : packet) : flow :=
  (src_addr p, src_port p, dst_addr p, dst_port p).

(** [diverted_flows.add(flow_id); diverted_ips.add(dst_ip)] *)
Definition mark (f : flow) (ip : string) (m : memo) : memo :=
  {| diverted_flows := {[f]} ∪ diverted_flows m;
     diverted_ips := {[ip]} ∪ diverted_ips m |}.

Inductive decision := Pass | Drop | Divert.

(** Lines 156-162: the keyword list of the first rule, with the legacy
    single keyword appended when it is set and not empty.  (The append is
    in place, so a restart finds the keyword in the list already and adds
    it again; a repeated keyword does not change any classification.) *)
Definition keywords_of (r : rule) : list keyword :=
  let kws := default [] (domain_keywords r) in
  match domain_keyword r with
  | Some kw => if keyword_truthy kw then kws ++ [kw] else kws
  | None => kws
  end.

(** Lines 195-208: [for kw in domain_keywords: if kw.encode() in payload:
    add, add, should_divert = True, break], inside [try ... except
    Exception: pass]: an entry whose [encode()] raises ends the scan with
    nothing marked and [should_divert] still false. *)
Fixpoint scan_keywords (kws : list keyword) (p : packet) (pl : bytes) (m : memo)
  : bool * memo :=
  match kws with
  | [] => (false, m)
  | kw :: rest =>
      match encode kw with
      | Some encoded =>
          if bytes_in encoded pl then (true, mark (flow_id p) (dst_addr p) m)
          else scan_keywords rest p pl m
      | None => (false, m)
      end
  end.

(** Lines 178-211: the disposition of one captured packet.  [Drop] is the
    [continue] of line 183; otherwise the result is [should_divert]. *)
Definition classify (kws : list keyword) (m : memo) (p : packet)
  : decision * memo :=
  if udp p && bool_decide (dst_port p = Some 443) then (Drop, m)
  else
    match kws with
    | _ :: _ =>
        if bool_decide (flow_id p ∈ diverted_flows m)
           || bool_decide (dst_addr p ∈ diverted_ips m)
        then (Divert, m)
        else
          match payload p with
          | Some pl =>
              if truthy pl then
                match scan_keywords kws p pl m with
                | (true, m') => (Divert, m')
                | (false, m') => (Pass, m')
                end
              else (Pass, m)
          | None => (Pass, m)
          end
    | [] => (Divert, m)
    end.

(** Lines 216-221 *)
Definition request_envelope (target : string) (p : packet) : json_object :=
  {[ "target" := JString target; "type" := JString "packet";
     "mode" := JString "request"; "payload" := JString (Hex.hex (raw p)) ]}.

Inductive action :=
  | LogNoFilters
  | OpenHandle (filter : string)
  | Enqueue (msg : json_object)
  | WarnNotReady
  | Reinject (p : packet).

(** What one pass through the loop body sees besides the packet: the value
    of [self.running], and whether the relay thread has already created the
    event loop and the queue (line 224). *)
Record capture := {
  running_now : bool;
  queue_ready : bool;
  pkt : packet
}.

(** Lines 213-230 *)
Definition dispose (target : string) (c : capture) (d : decision) : list action :=
  match d with
  | Drop => []
  | Divert =>
      if queue_ready c then [Enqueue (request_envelope target (pkt c))]
      else [WarnNotReady]
  | Pass => [Reinject (pkt c)]
  end.

(** Lines 174-230: the loop over captured packets; [break] when
    [self.running] is false. *)
Fixpoint capture_loop (target : string) (kws : list keyword) (m : memo)
  (cs : list capture) : list action :=
  match cs with
  | [] => []
  | c :: rest =>
      if running_now c then
        let '(d, m') := classify kws m (pkt c) in
        dispose target c d ++ capture_loop target kws m' rest
      else []
  end.

(** Lines 149-173 *)
Definition run_windivert (filters : list rule) (cs : list capture) : list action :=
  match filters with
  | [] => [LogNoFilters]
  | r :: _ =>
      OpenHandle (windivert_filter r)
      :: capture_loop (target_client r) (keywords_of r) no_memo cs
  end.

(** [p] with another payload and the same header fields. *)
Definition with_payload (p : packet) (pl : option bytes) : packet :=
  {| udp := udp p; src_addr := src_addr p; src_port := src_port p;
     dst_addr := dst_addr p; dst_port := dst_port p;
     payload := pl; raw := raw p |}.

(** The two sets after the loop body has run on [ps], in order. *)
Fixpoint memo_after (kws : list keyword) (m : memo) (ps : list packet) : memo :=
  match ps with
  | [] => m
  | p :: rest => memo_after kws (classify kws m p).2 rest
  end.

(** The sets are filled together: the destination of a marked flow is a
    marked address. *)
Definition coherent (m : memo) : Prop :=
  ∀ f, f ∈ diverted_flows m → f.1.2 ∈ diverted_ips m.

(** The stickiness of a keyword match in the words of the specification:
    a packet whose TCP payload contains a configured keyword is diverted
    and marks its flow and destination, and every later packet of that
    flow or to that destination is diverted. *)
Definition sticky_match_as_stated : Prop :=
  ∀ kws before p pl kw,
    udp p = false → payload p = Some pl → kw ∈ kws → bytes_in kw pl = true →
    ∃ m', classify (texts kws) (memo_after (texts kws) no_memo before) p
          = (Divert, m')
      ∧ flow_id p ∈ diverted_flows m'
      ∧ dst_addr p ∈ diverted_ips m'
      ∧ ∀ between q,
          flow_id q = flow_id p ∨ dst_addr q = dst_addr p →
          (classify (texts kws) (memo_after (texts kws) m' between) q).1
          = Divert.

(** The test of line 181: a UDP packet to port 443. *)
Definition quic_bound (p : packet) : bool :=
  udp p && bool_decide (dst_port p = Some 443).

(** Whether the scan of lines 200-206 finds a keyword in the payload: some
    keyword occurs in it and no entry before that one fails to encode. *)
Fixpoint has_keyword (kws : list keyword) (pl : bytes) : bool :=
  match kws with
  | [] => false
  | kw :: rest =>
      match encode kw with
      | Some encoded => bytes_in encoded pl || has_keyword rest pl
      | None => false
      end
  end.

(** The effects that one pass of the loop body may have for a capture. *)
Definition effect_of (target : string) (c : capture) (a : action) : Prop :=
  a = Reinject (pkt c)
  ∨ a = Enqueue (request_envelope target (pkt c))
  ∨ a = WarnNotReady.

End Capture.

(** ** The relay server: [handler] of [src/server/main.py] *)

Module Server.

(** A websocket connection object, by identity. *)
Definition conn : Type := nat.

(** Where one [handler] coroutine stands, with its local [client_id]. *)
Inductive handler_state :=
  | AwaitingAuth                      (* line 93, [client_id] is [None] *)
  | Serving (client_id : string)      (* line 115 *)
  | Finished.                         (* returned, [finally] has run *)

(** The module-level dict [connected_clients], and the handlers started so
    far, one per accepted connection. *)
Record server := {
  connected_clients : gmap string conn;
  handlers : gmap conn handler_state
}.

Definition initial : server := {| connected_clients := ∅; handlers := ∅ |}.

(** What a handler is resumed with. *)
Inductive event :=
  | Accept                      (* [websockets.serve] starts [handler(websocket)] *)
  | Message (f : frame)         (* [recv()] or the [async for] yields a frame *)
  | AuthTimeout                 (* [asyncio.wait_for] gives up after 10 s *)
  | ConnectionClosed.           (* the peer is gone *)

(** The effects a handler requests.  [msg] stands for [json.dumps(msg)];
    log calls are left out.  A [send] that fails on a dead connection is
    caught at line 136 (or ends the handler); the model records the send
    as requested. *)
Inductive action :=
  | Send (to : conn) (msg : json_object)
  | Close (ws : conn) (code : Z) (reason : string).

Definition invalid_token_code : Z := 4001.
Definition name_mismatch_code : Z := 4002.

Definition authenticated_reply : json_object :=
  {[ "status" := JString "authenticated" ]}.

(** Line 130 *)
Definition error_envelope (target : option json) : json_object :=
  {[ "type" := JString "error";
     "message" := JString ("Target " +:+ shown_json target +:+ " not found") ]}.

(** [d.get(key)], and the lookup behind [key in d], on a dict with [str]
    keys, for [key = data.get(k)].  The outer [None] is the [TypeError] of
    a key that cannot be hashed; a hashable key that is not a [str], and
    [None] itself, is equal to no key of the dict. *)
Definition dict_get {V : Type} (d : gmap string V) (key : option json)
  : option (option V) :=
  match key with
  | None => Some None
  | Some (JString k) => Some (d !! k)
  | Some (JOther true _ _) => Some None
  | Some (JOther false _ _) => None
  end.

(** A key on which a dict lookup raises: it cannot be hashed, as an array
    or an object. *)
Definition unhashable (key : option json) : bool :=
  match key with
  | Some (JOther false _ _) => true
  | _ => false
  end.

(** A target on which the membership test of line 121 raises: it is true
    (so the test is evaluated) and cannot be hashed, as a non-empty array
    or object. *)
Definition target_raises (target : option json) : bool :=
  match target with
  | Some (JOther false true _) => true
  | _ => false
  end.

(** Lines 94-113.  [clients] is [config['clients']], the token -> name map.
    A frame that cannot be read as an object, or a token that cannot be
    hashed, ends the handler through the generic [except] of line 143. *)
Definition authenticate (clients : gmap string string)
  (reg : gmap string conn) (websocket : conn) (f : frame)
  : gmap string conn * handler_state * list action :=
  match f with
  | BadJson | NotAnObject => (reg, Finished, [])
  | Object auth_data =>
      let token := auth_data !! "token" in
      let name := auth_data !! "name" in
      match dict_get clients token with
      | None => (reg, Finished, [])
      | Some expected_name =>
          if negb (truthy_opt expected_name) then
            (reg, Finished,
             [Close websocket invalid_token_code "Invalid token"])
          else if bool_decide (expected_name ≠ as_str name) then
            (reg, Finished,
             [Close websocket name_mismatch_code "Name mismatch"])
          else
            let client_id := py_str (as_str name) in
            (<[client_id := websocket]> reg, Serving client_id,
             [Send websocket authenticated_reply])
      end
  end.

(** Lines 117-137: one pass through the message loop.  The registry is
    only read.  A target that cannot be hashed raises at line 121 and the
    message is dropped by the [except] of line 136. *)
Definition route (reg : gmap string conn) (websocket : conn)
  (client_id : string) (f : frame) : list action :=
  match f with
  | BadJson | NotAnObject => []
  | Object data =>
      let target := data !! "target" in
      if truthy_json target then
        match dict_get reg target with
        | None => []
        | Some (Some target_ws) =>
            [Send target_ws (<["sender" := JString client_id]> data)]
        | Some None => [Send websocket (error_envelope target)]
        end
      else [Send websocket (error_envelope target)]
  end.

(** Lines 145-148 *)
Definition finally (client_id : string) (reg : gmap string conn)
  : gmap string conn :=
  if truthy client_id && bool_decide (is_Some (reg !! client_id))
  then delete client_id reg
  else reg.

Definition set_handler (websocket : conn) (h : handler_state) (s : server)
  (reg : gmap string conn) : server :=
  {| connected_clients := reg; handlers := <[websocket := h]> (handlers s) |}.

(** One resumption of the handler that owns [websocket]. *)
Definition handler (clients : gmap string string) (s : server)
  (websocket : conn) (e : event) : server * list action :=
  match handlers s !! websocket, e with
  | None, Accept =>
      (set_handler websocket AwaitingAuth s (connected_clients s), [])
  | Some AwaitingAuth, Message f =>
      let '(reg, h, out) :=
        authenticate clients (connected_clients s) websocket f in
      (set_handler websocket h s reg, out)
  | Some AwaitingAuth, (AuthTimeout | ConnectionClosed) =>
      (set_handler websocket Finished s (connected_clients s), [])
  | Some (Serving client_id), Message f =>
      (s, route (connected_clients s) websocket client_id f)
  | Some (Serving client_id), ConnectionClosed =>
      (set_handler websocket Finished s
         (finally client_id (connected_clients s)), [])
  | _, _ => (s, [])
  end.

(** The server over a sequence of resumptions, in scheduling order. *)
Fixpoint run (clients : gmap string string) (s : server)
  (evs : list (conn * event)) : server * list action :=
  match evs with
  | [] => (s, [])
  | (ws, e) :: rest =>
      let '(s', out) := handler clients s ws e in
      let '(s'', out') := run clients s' rest in
      (s'', out ++ out')
  end.

Definition reachable (clients : gmap string string) (s : server) : Prop :=
  ∃ evs, (run clients initial evs).1 = s.

(** The name-mismatch rejection in the words of the specification: a first
    message whose token is bound to a name other than the claimed one
    closes the connection with the name-mismatch code and leaves the
    registry as it was. *)
Definition mismatch_closure_as_stated : Prop :=
  ∀ (clients : gmap string string) (s : server) (websocket : conn)
    (auth_data : json_object) (token bound : string),
    handlers s !! websocket = Some AwaitingAuth →
    auth_data !! "token" = Some (JString token) →
    clients !! token = Some bound →
    auth_data !! "name" ≠ Some (JString bound) →
    ∃ s' reason,
      handler clients s websocket (Message (Object auth_data))
      = (s', [Close websocket name_mismatch_code reason])
      ∧ connected_clients s' = connected_clients s.

(** The error reply in the words of the specification: a routed envelope
    whose target is absent or names no live session is answered with one
    error envelope to the sender. *)
Definition unknown_target_as_stated : Prop :=
  ∀ (clients : gmap string string) (s : server) (websocket : conn)
    (client_id : string) (data : json_object),
    handlers s !! websocket = Some (Serving client_id) →
    (∀ target, data !! "target" = Some (JString target) →
               connected_clients s !! target = None) →
    handler clients s websocket (Message (Object data))
    = (s, [Send websocket (error_envelope (data !! "target"))]).

(** Registered names are not empty, and a serving handler's [client_id] is
    a name of the token map. *)
Definition well_formed (clients : gmap string string) (s : server) : Prop :=
  (∀ name ws, connected_clients s !! name = Some ws → name ≠ "")
  ∧ (∀ ws client_id, handlers s !! ws = Some (Serving client_id) →
       client_id ≠ "" ∧ ∃ token, clients !! token = Some client_id).

(** Every registry entry points to a connection whose handler is serving
    under the entry's name. *)
Definition registry_sound (s : server) : Prop :=
  ∀ name ws, connected_clients s !! name = Some ws →
             handlers s !! ws = Some (Serving name).

(** A frame that [json.loads] or the first [.get] rejects. *)
Definition unreadable (f : frame) : bool :=
  match f with
  | BadJson | NotAnObject => true
  | Object _ => false
  end.

End Server.

(** ** The relay client: [NetworkManager] of [src/client/network_manager.py] *)

Module Client.

Record config := {
  server_url : string;
  client_token : string;
  client_name : string
}.

Inductive direction := Inbound | Outbound.

Inductive log :=
  | AuthResponse                (* line 38 *)
  | ConnectionError             (* line 49 *)
  | ReceiveError                (* line 64 *)
  | SendError                   (* line 73 *)
  | InjectionError.             (* line 131 *)

Inductive action :=
  | Status (connected : bool)   (* [self.status_callback(connected)] *)
  | Connect (url : string)      (* [websockets.connect(url)] is entered *)
  | CloseWs                     (* the [async with] block is left *)
  | WsSend (msg : json_object)  (* [websocket.send(json.dumps(msg))] *)
  | Inject (d : direction) (packet : bytes)    (* [w.send(...)], line 113 *)
  | Sleep (seconds : N)         (* [asyncio.sleep(seconds)] *)
  | Log (l : log).

(** [self.nat_table]: (src_ip, src_port) -> (original_src_ip, original_src_port) *)
Abbreviation nat_table_t := (gmap (string * Z) (string * Z)) (only parsing).

(** [bytes.fromhex(v)] for [v = data['payload']]: [None] is the
    [ValueError] of a [str] that is not hex, or the [TypeError] of a value
    that is not a [str]. *)
Definition fromhex_json (v : json) : option bytes :=
  match v with
  | JString s => Hex.fromhex s
  | JOther _ _ _ => None
  end.

(** Lines 76-131.  [None] is an exception that leaves the function: the
    [KeyError] of [data['payload']] and the error of [bytes.fromhex], both
    raised at line 82, before the [try] of line 93.  Otherwise the result
    is the NAT table afterwards and the effects.

    In the response branch the arguments of line 113 name
    [pydivert.Packet.Network] and [pydivert.Packet.Inbound], which
    [pydivert.Packet] does not have: evaluating them raises inside the
    [try], whether or not the handle of line 112 could be opened, so
    [w.send] is never called and the [except] of line 130 logs the
    error. *)
Definition handle_incoming_packet (nat_table : nat_table_t) (data : json_object)
  : option (nat_table_t * list action) :=
  match data !! "payload" ≫= fromhex_json with
  | None => None
  | Some payload =>
      let mode := as_str (data !! "mode") in
      if bool_decide (mode = Some "response") then
        Some (nat_table, [Log InjectionError])
      else if bool_decide (mode = Some "request") then
        Some (nat_table, [])                                   (* [pass] *)
      else
        Some (nat_table, [])
  end.

(** Lines 57-62: the body of the receive loop for one frame. *)
Definition on_message (nat_table : nat_table_t) (f : frame)
  : option (nat_table_t * list action) :=
  match f with
  | BadJson | NotAnObject => None
  | Object data =>
      if bool_decide (as_str (data !! "type") = Some "packet")
      then handle_incoming_packet nat_table data
      else Some (nat_table, [])
  end.

(** The two tasks of [asyncio.gather]. *)
Inductive recv_task :=
  | Receiving                   (* suspended in the [async for] of line 56 *)
  | RecvReturned.

Inductive send_task :=
  | AwaitingQueue               (* suspended in [packet_queue.get()], line 68 *)
  | Sending                     (* suspended in [ws.send], line 71 *)
  | SendReturned.               (* [while self.running] was left *)

(** Where [connect_to_server] is suspended. *)
Inductive phase :=
  | Connecting                  (* line 29 *)
  | AuthSending                 (* line 36 *)
  | AuthReceiving               (* line 37 *)
  | Active (r : recv_task) (s : send_task)    (* line 44 *)
  | Backoff (remaining : N)     (* line 52 *)
  | Exited.

Record client := {
  running : bool;
  has_callback : bool;          (* [self.status_callback] is set *)
  packet_queue : list json_object;
  nat_table : nat_table_t;
  at_ : phase
}.

Definition goto (c : client) (p : phase) : client :=
  {| running := running c; has_callback := has_callback c;
     packet_queue := packet_queue c; nat_table := nat_table c; at_ := p |}.

Definition with_queue (c : client) (q : list json_object) : client :=
  {| running := running c; has_callback := has_callback c;
     packet_queue := q; nat_table := nat_table c; at_ := at_ c |}.

Definition with_nat (c : client) (t : nat_table_t) : client :=
  {| running := running c; has_callback := has_callback c;
     packet_queue := packet_queue c; nat_table := t; at_ := at_ c |}.

Definition stopped (c : client) : client :=
  {| running := false; has_callback := has_callback c;
     packet_queue := packet_queue c; nat_table := nat_table c; at_ := at_ c |}.

Definition started (c : client) : client :=
  {| running := true; has_callback := has_callback c;
     packet_queue := packet_queue c; nat_table := nat_table c; at_ := at_ c |}.

(** What the coroutine is resumed with.  [Stop] and [Start] are the writes
    of [self.running] by [stop()] (line 242) and by a later [start()]
    (line 134), as this coroutine sees them; the threads that the later
    [start()] starts are further runs of the same code. *)
Inductive event :=
  | Stop                        (* [self.running = False] *)
  | Start                       (* [self.running = True] *)
  | Connected                   (* [websockets.connect] succeeded *)
  | ConnectFailed               (* it raised *)
  | Sent                        (* an awaited [send] completed *)
  | SendFailed                  (* it raised *)
  | Received (f : frame)        (* [recv()] or the [async for] yields a frame *)
  | ReceiveFailed               (* it raises: the connection is lost *)
  | StreamEnded                 (* the [async for] ends: closed normally *)
  | Put (msg : json_object)     (* the capture thread's [put_nowait] runs *)
  | Elapsed (seconds : N).      (* time passes *)

Definition reconnect_delay : N := 5.

Section Coroutine.
Variable cfg : config.

(** [if self.status_callback: self.status_callback(b)] *)
Definition notify (c : client) (b : bool) : list action :=
  if has_callback c then [Status b] else [].

Definition auth_msg : json_object :=
  {[ "token" := JString (client_token cfg);
     "name" := JString (client_name cfg) ]}.

(** Lines 24-29: the head of [while self.running] up to the connect call. *)
Definition loop_head (c : client) : client * list action :=
  if running c
  then (goto c Connecting, notify c false ++ [Connect (server_url cfg)])
  else (goto c Exited, []).

(** Lines 48-52: the [except Exception] of the connection loop.  [inside]
    tells whether the [async with] block had been entered. *)
Definition on_exception (inside : bool) (c : client) : client * list action :=
  (goto c (Backoff reconnect_delay),
   (if inside then [CloseWs] else [])
   ++ [Log ConnectionError] ++ notify c false ++ [Sleep reconnect_delay]).

(** Lines 67-68: [send_handler] at the head of its loop.  [self.ws] was
    set at line 30, so the test of line 69 succeeds. *)
Definition send_resume (c : client) : client * send_task * list action :=
  if running c then
    match packet_queue c with
    | packet_data :: rest => (with_queue c rest, Sending, [WsSend packet_data])
    | [] => (c, AwaitingQueue, [])
    end
  else (c, SendReturned, []).

(** [asyncio.gather] returns when both tasks have returned; control then
    leaves the [async with] and goes back to the loop head. *)
Definition join (c : client) (r : recv_task) (s : send_task) (out : list action)
  : client * list action :=
  match r, s with
  | RecvReturned, SendReturned =>
      let '(c', out') := loop_head c in (c', out ++ [CloseWs] ++ out')
  | _, _ => (goto c (Active r s), out)
  end.

Definition step (c : client) (e : event) : client * list action :=
  match e, at_ c with
  | Stop, _ => (stopped c, [])
  | Start, _ => (started c, [])
  | Put msg, Active r AwaitingQueue =>
      (* the pending [get()] returns the head of the queue *)
      match packet_queue c ++ [msg] with
      | packet_data :: rest =>
          (goto (with_queue c rest) (Active r Sending), [WsSend packet_data])
      | [] => (c, [])
      end
  | Put msg, _ => (with_queue c (packet_queue c ++ [msg]), [])
  | Connected, Connecting => (goto c AuthSending, [WsSend auth_msg])
  | ConnectFailed, Connecting => on_exception false c
  | Sent, AuthSending => (goto c AuthReceiving, [])
  | SendFailed, AuthSending => on_exception true c
  | Received _, AuthReceiving =>
      let '(c', s, out) := send_resume c in
      join c' Receiving s ([Log AuthResponse] ++ notify c true ++ out)
  | (ReceiveFailed | StreamEnded), AuthReceiving => on_exception true c
  | Received f, Active Receiving s =>
      match on_message (nat_table c) f with
      | Some (t, out) => (with_nat c t, out)
      | None => join c RecvReturned s [Log ReceiveError]
      end
  | ReceiveFailed, Active Receiving s => join c RecvReturned s [Log ReceiveError]
  | StreamEnded, Active Receiving s => join c RecvReturned s []
  | Sent, Active r Sending =>
      let '(c', s, out) := send_resume c in join c' r s out
  | SendFailed, Active r Sending =>
      let '(c', s, out) := send_resume c in join c' r s ([Log SendError] ++ out)
  | Elapsed d, Backoff remaining =>
      if (remaining <=? d)%N then loop_head c
      else (goto c (Backoff (remaining - d)), [])
  | _, _ => (c, [])
  end.

Fixpoint run (c : client) (evs : list event) : client * list action :=
  match evs with
  | [] => (c, [])
  | e :: rest =>
      let '(c', out) := step c e in
      let '(c'', out') := run c' rest in
      (c'', out ++ out')
  end.

End Coroutine.

(** [run_async_loop]: a fresh queue, then [connect_to_server]. *)
Definition connect_to_server (cfg : config) (callback : bool) (evs : list event)
  : client * list action :=
  let c0 := {| running := true; has_callback := callback; packet_queue := [];
               nat_table := ∅; at_ := Exited |} in
  let '(c1, out) := loop_head cfg c0 in
  let '(c2, out') := run cfg c1 evs in
  (c2, out ++ out').

(** The state the client is left in once the receive task has returned
    while the send task goes on: the connection is neither read nor left. *)
Definition half_dead (c : client) : Prop :=
  running c = true
  ∧ ∃ s, at_ c = Active RecvReturned s ∧ s ≠ SendReturned.

(** The effects of [send_handler] alone. *)
Definition is_send_effect (a : action) : bool :=
  match a with
  | WsSend _ | Log SendError => true
  | _ => false
  end.

(** Seconds that pass during a sequence of events. *)
Fixpoint elapsed (evs : list event) : N :=
  match evs with
  | [] => 0
  | Elapsed d :: rest => d + elapsed rest
  | _ :: rest => elapsed rest
  end.

(** [n] connection attempts in a row that fail, each followed by the wait. *)
Fixpoint failed_attempts (n : nat) : list event :=
  match n with
  | O => []
  | S n' => ConnectFailed :: Elapsed reconnect_delay :: failed_attempts n'
  end.

(** Any effect but the start of a connection attempt. *)
Definition not_connect (a : action) : Prop := ∀ url, a ≠ Connect url.

(** Any effect but an injection. *)
Definition not_injection (a : action) : Prop :=
  ∀ d packet, a ≠ Inject d packet.

(** Any effect but an outbound injection. *)
Definition harmless (a : action) : Prop :=
  ∀ packet, a ≠ Inject Outbound packet.


(** The envelopes the capture thread has put on the queue, in order. *)
Fixpoint put_messages (evs : list event) : list json_object :=
  match evs with
  | [] => []
  | Put msg :: rest => msg :: put_messages rest
  | _ :: rest => put_messages rest
  end.


End Client.

(** ** The tray icon: [TrayApp.update_status] of [src/client/tray_app.py] *)

Module Tray.





End Tray.

(** ** Concrete data used by the examples below *)

Module Samples.
Import Capture.

(** A TCP segment to port 443 whose payload carries a host name. *)
Definition tcp_hello : packet :=
  {| udp := false; src_addr := "10.0.0.2"; src_port := Some 50000;
     dst_addr := "93.184.216.34"; dst_port := Some 443;
     payload := Some "GET / example.com"; raw := "E" |}.

(** A later segment of another flow to the same address, without keyword. *)
Definition tcp_other_flow : packet :=
  {| udp := false; src_addr := "10.0.0.2"; src_port := Some 50007;
     dst_addr := "93.184.216.34"; dst_port := Some 80;
     payload := Some "plain"; raw := "F" |}.

(** A QUIC datagram to the same address. *)
Definition quic : packet :=
  {| udp := true; src_addr := "10.0.0.2"; src_port := Some 50001;
     dst_addr := "93.184.216.34"; dst_port := Some 443;
     payload := Some "q"; raw := "G" |}.

(** A TCP segment without data, such as a bare ACK. *)
Definition tcp_ack : packet :=
  {| udp := false; src_addr := "10.0.0.2"; src_port := Some 50002;
     dst_addr := "198.51.100.7"; dst_port := Some 443;
     payload := Some ""; raw := "H" |}.

Definition marked : memo := mark (flow_id tcp_hello) (dst_addr tcp_hello) no_memo.

Definition rule_a : rule :=
  {| windivert_filter := "outbound and tcp.DstPort == 443";
     target_client := "bob";
     domain_keywords := Some [Text "example"];
     domain_keyword := None |}.

Definition rule_b : rule :=
  {| windivert_filter := "outbound and tcp.DstPort == 80";
     target_client := "carol";
     domain_keywords := Some [Text "plain"];
     domain_keyword := None |}.

(** The token map of the end-to-end scenario. *)
Definition tokens : gmap string string := {[ "T1" := "alice"; "T2" := "bob" ]}.

Definition auth (token name : string) : json_object :=
  {[ "token" := JString token; "name" := JString name ]}.

Definition to_bob : json_object :=
  {[ "target" := JString "bob"; "type" := JString "packet";
     "mode" := JString "request"; "payload" := JString "deadbeef" ]}.

Definition to_carol : json_object :=
  {[ "target" := JString "carol"; "type" := JString "packet";
     "mode" := JString "request"; "payload" := JString "deadbeef" ]}.

(** The JSON array [["bob"]]: not hashable, true. *)
Definition bob_in_a_list : json := JOther false true "['bob']".

(** An envelope whose target is an array. *)
Definition to_a_list : json_object :=
  {[ "target" := bob_in_a_list; "type" := JString "packet";
     "mode" := JString "request"; "payload" := JString "deadbeef" ]}.

(** A first message whose token is an array. *)
Definition auth_with_list_token : json_object :=
  {[ "token" := JOther false true "['T1']"; "name" := JString "alice" ]}.

(** Connections 1 and 2 have authenticated as alice and bob. *)
Definition alice_and_bob : list (Server.conn * Server.event) :=
  [(1%nat, Server.Accept); (2%nat, Server.Accept);
   (1%nat, Server.Message (Object (auth "T1" "alice")));
   (2%nat, Server.Message (Object (auth "T2" "bob")))].

Definition two_sessions : Server.server :=
  (Server.run tokens Server.initial alice_and_bob).1.

(** Connection 3 has been accepted and has not sent anything yet. *)
Definition three_connections : Server.server :=
  (Server.run tokens two_sessions [(3%nat, Server.Accept)]).1.

(** Connections 1 and 2 have been accepted, nobody has authenticated. *)
Definition two_accepted : Server.server :=
  (Server.run tokens Server.initial
     [(1%nat, Server.Accept); (2%nat, Server.Accept)]).1.

(** A token map that binds a token to the empty name. *)
Definition empty_binding : gmap string string := {[ "T" := "" ]}.

Definition one_accepted : Server.server :=
  (Server.run empty_binding Server.initial [(1%nat, Server.Accept)]).1.

Definition client_cfg : Client.config :=
  {| Client.server_url := "wss://relay.example/ws";
     Client.client_token := "T2"; Client.client_name := "bob" |}.

(** A request envelope as the relay delivers it to the executor. *)
Definition request_for_bob : json_object :=
  <["sender" := JString "alice"]> to_bob.

Definition response_ok : json_object :=
  {[ "target" := JString "alice"; "type" := JString "packet";
     "mode" := JString "response"; "payload" := JString "4500";
     "sender" := JString "bob" ]}.

(** A response whose payload has an odd number of hex digits. *)
Definition response_bad_hex : json_object :=
  {[ "target" := JString "alice"; "type" := JString "packet";
     "mode" := JString "response"; "payload" := JString "abc";
     "sender" := JString "bob" ]}.

(** The client right after a successful handshake: both tasks running,
    nothing queued. *)
Definition active_client : Client.client :=
  {| Client.running := true; Client.has_callback := true;
     Client.packet_queue := []; Client.nat_table := ∅;
     Client.at_ := Client.Active Client.Receiving Client.AwaitingQueue |}.

End Samples.

(** ** Facts about the byte-level helpers *)

Lemma append_nil (t : string) : "" +:+ t = t.
Proof. reflexivity. Qed.

Lemma append_cons (a : ascii) (s t : string) :
  String a s +:+ t = String a (s +:+ t).
Proof. reflexivity. Qed.

Lemma starts_with_spec needle hay :
  starts_with needle hay = true ↔ ∃ rest, hay = needle +:+ rest.
Proof.
  revert hay. induction needle as [|a n IH]; intros hay; simpl.
  - split; [intros _; by exists hay | done].
  - destruct hay as [|b h].
    + split; [done | by intros [rest Hr]].
    + destruct (Ascii.eqb_spec a b) as [->|Hne].
      * rewrite IH. split; intros [rest Hr]; exists rest;
          rewrite append_cons in *; congruence.
      * split; [done | intros [rest Hr]; rewrite append_cons in Hr; congruence].
Qed.

(** [bytes_in] is the byte-substring relation. *)
Lemma bytes_in_spec needle hay :
  bytes_in needle hay = true ↔ ∃ before after, hay = before +:+ needle +:+ after.
Proof.
  induction hay as [|b h IH]; simpl.
  - rewrite orb_false_r, starts_with_spec. split.
    + intros [rest Hr]. by exists "", rest.
    + intros [before [after H]]. destruct before; [by exists after | done].
  - rewrite orb_true_iff, starts_with_spec, IH. split.
    + intros [[rest Hr] | [before [after Hr]]].
      * by exists "", rest.
      * exists (String b before), after. rewrite append_cons. by rewrite Hr.
    + intros [before [after Hr]]. destruct before as [|c before].
      * left. by exists after.
      * right. exists before, after. rewrite append_cons in Hr. congruence.
Qed.

Lemma truthy_true (s : string) : truthy s = true ↔ s ≠ "".
Proof. destruct s; simpl; split; congruence. Qed.

Lemma as_str_Some (o : option json) (text : string) :
  as_str o = Some text ↔ o = Some (JString text).
Proof.
  destruct o as [[t|? ? ?]|]; simpl; split; try done; by intros [= ->].
Qed.

Module HexFacts.
Import Hex.

Lemma byte_digits (c : ascii) :
  let n := N_of_ascii c in
  is_space (digit_char (n / 16)) = false
  ∧ digit_value (digit_char (n / 16)) = Some (n / 16)%N
  ∧ digit_value (digit_char (n mod 16)) = Some (n mod 16)%N
  ∧ ascii_of_N (n / 16 * 16 + n mod 16) = c.
Proof.
  destruct c as [[] [] [] [] [] [] [] []]; vm_compute; repeat split.
Qed.

(** Encoding a packet to hex and decoding it back gives the same bytes. *)
Lemma fromhex_hex (b : bytes) : fromhex (hex b) = Some b.
Proof.
  induction b as [|c rest IH]; [done|].
  destruct (byte_digits c) as (Hsp & Htop & Hbot & Hc).
  cbn [hex fromhex]. rewrite Hsp, Htop, Hbot, IH. cbv zeta in Hc. by rewrite Hc.
Qed.

Example fromhex_odd_length : fromhex "abc" = None.
Proof. reflexivity. Qed.

Example fromhex_non_hex : fromhex "zz" = None.
Proof. reflexivity. Qed.

End HexFacts.

(** ** The capture loop: classification of captured packets *)

Module CaptureFacts.
Import Capture Samples.

Lemma scan_keywords_hit (kws : list string) p pl m kw :
  kw ∈ kws → bytes_in kw pl = true →
  scan_keywords (texts kws) p pl m
  = (true, mark (flow_id p) (dst_addr p) m).
Proof.
  induction kws as [|k rest IH]; intros Hin Hkw.
  - by apply elem_of_nil in Hin.
  - simpl. destruct (bytes_in k pl) eqn:Hk; [done|].
    apply elem_of_cons in Hin as [->|Hin]; [congruence | by apply IH].
Qed.

Lemma scan_keywords_memo kws p pl m :
  (scan_keywords kws p pl m).2 = m
  ∨ (scan_keywords kws p pl m).2 = mark (flow_id p) (dst_addr p) m.
Proof.
  induction kws as [|k rest IH]; simpl; [by left|].
  destruct (encode k) as [encoded|]; [|by left].
  destruct (bytes_in encoded pl); [by right | done].
Qed.

Lemma texts_nil (kws : list string) : texts kws = [] ↔ kws = [].
Proof. by destruct kws. Qed.

(** One pass through the loop body leaves the sets as they are or adds the
    packet's own flow and destination. *)
Lemma classify_memo kws m p :
  (classify kws m p).2 = m
  ∨ (classify kws m p).2 = mark (flow_id p) (dst_addr p) m.
Proof.
  unfold classify.
  destruct (udp p && bool_decide (dst_port p = Some 443)); [by left|].
  destruct kws as [|k rest]; [by left|].
  destruct (bool_decide (flow_id p ∈ diverted_flows m)
            || bool_decide (dst_addr p ∈ diverted_ips m)); [by left|].
  destruct (payload p) as [pl|]; [|by left].
  destruct (truthy pl); [|by left].
  destruct (scan_keywords_memo (k :: rest) p pl m) as [H|H];
    destruct (scan_keywords (k :: rest) p pl m) as [[] m']; simpl in *; auto.
Qed.

Lemma mark_flows f ip m g :
  g ∈ diverted_flows m → g ∈ diverted_flows (mark f ip m).
Proof. unfold mark; simpl; set_solver. Qed.

Lemma mark_ips f ip m a :
  a ∈ diverted_ips m → a ∈ diverted_ips (mark f ip m).
Proof. unfold mark; simpl; set_solver. Qed.

(** Marks are never removed. *)
Lemma memo_after_flows kws ps : ∀ m g,
  g ∈ diverted_flows m → g ∈ diverted_flows (memo_after kws m ps).
Proof.
  induction ps as [|p rest IH]; intros m g Hg; [done|].
  simpl. apply IH.
  destruct (classify_memo kws m p) as [-> | ->]; [done | by apply mark_flows].
Qed.

Lemma memo_after_ips kws ps : ∀ m a,
  a ∈ diverted_ips m → a ∈ diverted_ips (memo_after kws m ps).
Proof.
  induction ps as [|p rest IH]; intros m a Ha; [done|].
  simpl. apply IH.
  destruct (classify_memo kws m p) as [-> | ->]; [done | by apply mark_ips].
Qed.

Lemma mark_coherent p m : coherent m → coherent (mark (flow_id p) (dst_addr p) m).
Proof.
  intros Hm f Hf. unfold mark in *; simpl in *.
  apply elem_of_union in Hf as [Hf|Hf].
  - apply elem_of_singleton in Hf as ->. set_solver.
  - apply Hm in Hf. set_solver.
Qed.

Lemma memo_after_coherent kws ps : ∀ m, coherent m → coherent (memo_after kws m ps).
Proof.
  induction ps as [|p rest IH]; intros m Hm; [done|].
  simpl. apply IH.
  destruct (classify_memo kws m p) as [-> | ->]; [done | by apply mark_coherent].
Qed.

Lemma no_memo_coherent : coherent no_memo.
Proof. intros f Hf. simpl in Hf. set_solver. Qed.

(** A marked flow or destination is diverted without a look at the
    payload, unless the packet is UDP to port 443. *)
Lemma classify_marked kws m q :
  kws ≠ [] →
  udp q && bool_decide (dst_port q = Some 443) = false →
  flow_id q ∈ diverted_flows m ∨ dst_addr q ∈ diverted_ips m →
  classify kws m q = (Divert, m).
Proof.
  intros Hk Hq Hm. unfold classify. rewrite Hq.
  destruct kws as [|k rest]; [done|].
  assert (bool_decide (flow_id q ∈ diverted_flows m)
          || bool_decide (dst_addr q ∈ diverted_ips m) = true) as ->; [|done].
  apply orb_true_iff. destruct Hm; [left | right]; by apply bool_decide_eq_true.
Qed.

(** C4.  A captured UDP packet to port 443 is dropped: whatever the
    keywords and whatever flows and addresses are marked, the sets stay as
    they are and the pass through the loop neither re-injects the packet
    nor queues it for the relay. *)
Theorem udp_443_dropped (target : string) (kws : list keyword) (m : memo)
  (c : capture) (rest : list capture) :
  udp (pkt c) = true →
  dst_port (pkt c) = Some 443 →
  classify kws m (pkt c) = (Drop, m)
  ∧ dispose target c Drop = []
  ∧ capture_loop target kws m (c :: rest)
    = if running_now c then capture_loop target kws m rest else [].
Proof.
  intros Hudp Hport.
  assert (classify kws m (pkt c) = (Drop, m)) as Hc.
  { unfold classify. rewrite Hudp, Hport. by rewrite bool_decide_eq_true_2. }
  split; [done|]. split; [done|].
  simpl. rewrite Hc. by destruct (running_now c).
Qed.

Lemma udp_443_dropped_witness :
  udp quic = true
  ∧ dst_port quic = Some 443
  ∧ classify [Text "example"] marked quic = (Drop, marked)
  ∧ capture_loop "bob" [Text "example"] marked
      [{| running_now := true; queue_ready := true; pkt := quic |}] = [].
Proof.
  pose proof (udp_443_dropped "bob" [Text "example"] marked
                {| running_now := true; queue_ready := true; pkt := quic |} []
                eq_refl eq_refl) as (Hc & _ & Hl).
  split; [reflexivity|]. split; [reflexivity|].
  split; [exact Hc | exact Hl].
Defined.

(** C3, as the code has it.  With keywords that are all strings that
    encode, a TCP packet with a non-empty payload that contains a
    configured keyword is diverted; afterwards its destination address is
    marked, and so is its flow when the address was not marked before.
    From then on every captured packet of that flow or to that address,
    other than UDP to port 443, is diverted whatever its payload, and the
    sets are left as they are. *)
Theorem keyword_match_sticks (kws : list string) (before : list packet)
  (p : packet) (pl : bytes) (kw : string) :
  udp p = false →
  payload p = Some pl →
  pl ≠ "" →
  kw ∈ kws →
  bytes_in kw pl = true →
  ∃ m', classify (texts kws) (memo_after (texts kws) no_memo before) p
        = (Divert, m')
    ∧ dst_addr p ∈ diverted_ips m'
    ∧ (dst_addr p ∉ diverted_ips (memo_after (texts kws) no_memo before) →
       flow_id p ∈ diverted_flows m')
    ∧ ∀ between q,
        flow_id q = flow_id p ∨ dst_addr q = dst_addr p →
        udp q && bool_decide (dst_port q = Some 443) = false →
        ∀ pl', classify (texts kws) (memo_after (texts kws) m' between)
                 (with_payload q pl')
               = (Divert, memo_after (texts kws) m' between).
Proof.
  intros Hudp Hpl Hne Hin Hkw.
  set (m := memo_after (texts kws) no_memo before).
  assert (coherent m) as Hcoh
    by (apply memo_after_coherent, no_memo_coherent).
  assert (texts kws ≠ []) as Hk
    by (rewrite texts_nil; intros ->; by apply elem_of_nil in Hin).
  assert (∃ m', classify (texts kws) m p = (Divert, m')
                ∧ dst_addr p ∈ diverted_ips m'
                ∧ (dst_addr p ∉ diverted_ips m → flow_id p ∈ diverted_flows m'))
    as (m' & Hc & Hi & Hf).
  { destruct (decide (flow_id p ∈ diverted_flows m
                      ∨ dst_addr p ∈ diverted_ips m)) as [Hm|Hm].
    - exists m. split; [apply classify_marked; by rewrite ?Hudp|].
      assert (dst_addr p ∈ diverted_ips m) as Hip
        by (destruct Hm as [Hm|Hm]; [apply (Hcoh _ Hm) | done]).
      split; [done | by intros []].
    - exists (mark (flow_id p) (dst_addr p) m).
      split; [|unfold mark; simpl; split; [|intros _]; set_solver].
      unfold classify. rewrite Hudp, Hpl. simpl.
      rewrite (scan_keywords_hit _ _ _ _ kw Hin Hkw).
      destruct (texts kws) as [|k rest]; [done|].
      rewrite (bool_decide_eq_false_2 (flow_id p ∈ diverted_flows m)) by tauto.
      rewrite (bool_decide_eq_false_2 (dst_addr p ∈ diverted_ips m)) by tauto.
      apply truthy_true in Hne. by rewrite Hne. }
  exists m'. split; [done|]. split; [done|]. split; [done|].
  intros between q Hq Hnot pl'.
  apply classify_marked; [done | done |].
  right. simpl. apply memo_after_ips.
  destruct Hq as [Hq|Hq]; [|by rewrite Hq].
  unfold flow_id in Hq. injection Hq as _ _ Hd _. by rewrite Hd.
Qed.

Lemma keyword_match_sticks_witness :
  udp tcp_hello = false
  ∧ payload tcp_hello = Some "GET / example.com"
  ∧ "GET / example.com" ≠ ""
  ∧ "example" ∈ ["example"]
  ∧ bytes_in "example" "GET / example.com" = true
  ∧ ∃ m', classify [Text "example"] no_memo tcp_hello = (Divert, m')
      ∧ classify [Text "example"] m' (with_payload tcp_other_flow None)
        = (Divert, m').
Proof.
  assert ("GET / example.com" ≠ "") as Hne by discriminate.
  assert ("example" ∈ ["example"]) as Hin by apply list_elem_of_here.
  destruct (keyword_match_sticks ["example"] [] tcp_hello "GET / example.com"
              "example" eq_refl eq_refl Hne Hin eq_refl)
    as (m' & Hc & _ & _ & Hlater).
  do 4 (split; [done|]). split; [reflexivity|].
  exists m'. split; [exact Hc|].
  apply (Hlater [] tcp_other_flow); [by right | reflexivity].
Defined.

(** C3 as worded does not hold: a segment without data contains the empty
    keyword and is passed; a packet on a new flow to an address that is
    already marked is diverted without its flow being added; a UDP packet
    to port 443 sent to a marked address is dropped, not diverted; and a
    keyword that follows an entry whose [encode()] raises is never looked
    for. *)
Lemma keyword_match_sticks_counterexample :
  classify [Text ""] no_memo tcp_ack = (Pass, no_memo)
  ∧ (flow_id tcp_other_flow
       ∉ diverted_flows (classify [Text "plain"] marked tcp_other_flow).2)
  ∧ classify [Text "example"] marked quic = (Drop, marked)
  ∧ classify [Unencodable true; Text "example"] no_memo tcp_hello
    = (Pass, no_memo)
  ∧ ¬ sticky_match_as_stated.
Proof.
  split; [reflexivity|]. split; [by vm_compute|]. split; [reflexivity|].
  split; [reflexivity|].
  intros H.
  assert ("example" ∈ ["example"]) as Hin by apply list_elem_of_here.
  destruct (H ["example"] [] tcp_hello "GET / example.com" "example"
              eq_refl eq_refl Hin eq_refl) as (m' & Hc & _ & _ & Hlater).
  assert (classify [Text "example"] no_memo tcp_hello = (Divert, marked))
    as Hm by reflexivity.
  simpl in Hc. rewrite Hm in Hc. injection Hc as <-.
  specialize (Hlater [] quic (or_intror eq_refl)).
  vm_compute in Hlater. discriminate.
Qed.

(** Every packet the loop queues for the relay is addressed to the target
    it was started with. *)
Lemma capture_loop_target target kws cs : ∀ m msg,
  Enqueue msg ∈ capture_loop target kws m cs →
  msg !! "target" = Some (JString target).
Proof.
  induction cs as [|c rest IH]; intros m msg Hin; simpl in Hin.
  - by apply elem_of_nil in Hin.
  - destruct (running_now c); [|by apply elem_of_nil in Hin].
    destruct (classify kws m (pkt c)) as [d m'].
    apply elem_of_app in Hin as [Hin|Hin]; [|by apply (IH m')].
    destruct d; simpl in Hin.
    + apply list_elem_of_singleton in Hin. discriminate.
    + by apply elem_of_nil in Hin.
    + destruct (queue_ready c); apply list_elem_of_singleton in Hin;
        [|discriminate].
      injection Hin as ->. unfold request_envelope.
      by rewrite lookup_insert_eq.
Qed.

Lemma scan_keywords_result kws p pl m :
  scan_keywords kws p pl m
  = if has_keyword kws pl then (true, mark (flow_id p) (dst_addr p) m)
    else (false, m).
Proof.
  induction kws as [|k rest IH]; simpl; [done|].
  destruct (encode k) as [encoded|]; [|done].
  destruct (bytes_in encoded pl); [done | exact IH].
Qed.

Lemma capture_loop_opens_nothing target kws cs : ∀ m filter,
  OpenHandle filter ∉ capture_loop target kws m cs.
Proof.
  induction cs as [|c rest IH]; intros m filter Hin; simpl in Hin.
  - by apply elem_of_nil in Hin.
  - destruct (running_now c); [|by apply elem_of_nil in Hin].
    destruct (classify kws m (pkt c)) as [d m'].
    apply elem_of_app in Hin as [Hin|Hin]; [|by apply (IH m' filter)].
    destruct d; simpl in Hin.
    + apply list_elem_of_singleton in Hin. discriminate.
    + by apply elem_of_nil in Hin.
    + destruct (queue_ready c); apply list_elem_of_singleton in Hin;
        discriminate.
Qed.

(** C10.  With more than one rule configured, the capture loop applies the
    first rule only.  Its run is the run on the first rule alone, whatever
    the later rules are; the only handle it opens has the first rule's
    filter; every packet it queues is addressed to the first rule's target;
    and the first rule's keywords decide: a first captured TCP packet with
    data is queued for that target when the scan of the first rule's
    keywords finds one in the payload, and re-injected otherwise, whatever
    keywords the later rules have. *)
Theorem only_first_rule_applies (r r' : rule) (rest : list rule) :
  (∀ cs, run_windivert (r :: r' :: rest) cs = run_windivert [r] cs)
  ∧ (∀ cs filter,
       OpenHandle filter ∈ run_windivert (r :: r' :: rest) cs →
       filter = windivert_filter r)
  ∧ (∀ cs msg,
       Enqueue msg ∈ run_windivert (r :: r' :: rest) cs →
       msg !! "target" = Some (JString (target_client r)))
  ∧ (∀ kws c pl,
       domain_keywords r = Some kws →
       domain_keyword r = None →
       kws ≠ [] →
       running_now c = true →
       queue_ready c = true →
       udp (pkt c) = false →
       payload (pkt c) = Some pl →
       pl ≠ "" →
       run_windivert (r :: r' :: rest) [c]
       = [OpenHandle (windivert_filter r);
          if has_keyword kws pl
          then Enqueue (request_envelope (target_client r) (pkt c))
          else Reinject (pkt c)]).
Proof.
  split; [done|]. split; [|split].
  - intros cs filter Hin. simpl in Hin.
    apply elem_of_cons in Hin as [[= ->]|Hin]; [done|].
    by apply capture_loop_opens_nothing in Hin.
  - intros cs msg Hin. simpl in Hin.
    apply elem_of_cons in Hin as [Hin|Hin]; [discriminate|].
    by apply capture_loop_target in Hin.
  - intros kws c pl Hkws Hlegacy Hne Hrun Hready Hudp Hpl Hdata.
    unfold run_windivert, keywords_of. rewrite Hkws, Hlegacy. simpl.
    rewrite Hrun. unfold classify. rewrite Hudp, Hpl. simpl.
    destruct kws as [|k kws']; [done|].
    rewrite (bool_decide_eq_false_2 (flow_id (pkt c) ∈ ∅))
      by apply not_elem_of_empty.
    rewrite (bool_decide_eq_false_2 (dst_addr (pkt c) ∈ ∅))
      by apply not_elem_of_empty.
    cbn [orb]. apply truthy_true in Hdata. rewrite Hdata.
    rewrite scan_keywords_result.
    destruct (has_keyword (k :: kws') pl); simpl; [by rewrite Hready | done].
Qed.

Lemma only_first_rule_applies_witness :
  domain_keywords rule_a = Some [Text "example"]
  ∧ domain_keyword rule_a = None
  ∧ [Text "example"] ≠ []
  ∧ udp tcp_other_flow = false
  ∧ payload tcp_other_flow = Some "plain"
  ∧ "plain" ≠ ""
  ∧ run_windivert [rule_a; rule_b]
      [{| running_now := true; queue_ready := true; pkt := tcp_other_flow |}]
    = [OpenHandle "outbound and tcp.DstPort == 443"; Reinject tcp_other_flow]
  ∧ run_windivert [rule_a; rule_b]
      [{| running_now := true; queue_ready := true; pkt := tcp_hello |}]
    = [OpenHandle "outbound and tcp.DstPort == 443";
       Enqueue (request_envelope "bob" tcp_hello)].
Proof.
  assert ([Text "example"] ≠ []) as Hne by discriminate.
  assert ("plain" ≠ "") as Hplain by discriminate.
  assert ("GET / example.com" ≠ "") as Hget by discriminate.
  destruct (only_first_rule_applies rule_a rule_b []) as (_ & _ & _ & Hfirst).
  do 2 (split; [reflexivity|]). split; [exact Hne|].
  do 2 (split; [reflexivity|]). split; [exact Hplain|]. split.
  - exact (Hfirst [Text "example"]
             {| running_now := true; queue_ready := true;
                pkt := tcp_other_flow |} "plain"
             eq_refl eq_refl Hne eq_refl eq_refl eq_refl eq_refl Hplain).
  - exact (Hfirst [Text "example"]
             {| running_now := true; queue_ready := true; pkt := tcp_hello |}
             "GET / example.com"
             eq_refl eq_refl Hne eq_refl eq_refl eq_refl eq_refl Hget).
Defined.

Example two_rules_run :
  run_windivert [rule_a; rule_b]
    [{| running_now := true; queue_ready := true; pkt := tcp_other_flow |}]
  = [OpenHandle "outbound and tcp.DstPort == 443"; Reinject tcp_other_flow].
Proof. reflexivity. Qed.

End CaptureFacts.

(** ** The relay server: authentication, routing and the registry *)

Module ServerFacts.
Import Server Samples.

Lemma truthy_opt_true (o : option string) :
  truthy_opt o = true ↔ ∃ s, o = Some s ∧ s ≠ "".
Proof.
  destruct o as [s|]; simpl.
  - rewrite truthy_true. split; [intros H; by exists s | by intros (? & [= ->] & ?)].
  - split; [done | by intros (? & ? & ?)].
Qed.

(** A handler that has returned is not resumed again. *)
Lemma finished_ignores clients s ws e :
  handlers s !! ws = Some Finished → handler clients s ws e = (s, []).
Proof. intros H. unfold handler. rewrite H. by destruct e. Qed.

(** What successful authentication looks like. *)
Lemma authenticate_ok clients reg ws (auth_data : json_object) token name :
  auth_data !! "token" = Some (JString token) →
  auth_data !! "name" = Some (JString name) →
  clients !! token = Some name →
  name ≠ "" →
  authenticate clients reg ws (Object auth_data)
  = (<[name := ws]> reg, Serving name, [Send ws authenticated_reply]).
Proof.
  intros Ht Hn Hc Hne. unfold authenticate. rewrite Ht, Hn. simpl. rewrite Hc.
  simpl. apply truthy_true in Hne. rewrite Hne. simpl.
  by rewrite bool_decide_eq_false_2 by (intros Hx; by apply Hx).
Qed.

(** Authentication registers a connection only under a non-empty name that
    some token is bound to. *)
Lemma authenticate_serving clients reg ws f reg' client_id out :
  authenticate clients reg ws f = (reg', Serving client_id, out) →
  reg' = <[client_id := ws]> reg
  ∧ client_id ≠ ""
  ∧ ∃ token, clients !! token = Some client_id.
Proof.
  unfold authenticate. destruct f as [| |auth_data]; [done | done |].
  destruct (dict_get clients (auth_data !! "token")) as [expected_name|] eqn:Hg;
    [|done].
  destruct (truthy_opt expected_name) eqn:Ht; simpl; [|done].
  case_bool_decide as Hn; [done|].
  intros [= <- <- <-].
  apply truthy_opt_true in Ht as (n & -> & Hne).
  assert (as_str (auth_data !! "name") = Some n) as Hname.
  { destruct (decide (Some n = as_str (auth_data !! "name"))) as [He|He];
      [congruence | done]. }
  rewrite Hname. simpl. split; [done|]. split; [done|].
  unfold dict_get in Hg.
  destruct (auth_data !! "token") as [[token|[] ? ?]|]; try done.
  injection Hg as Hg. by exists token.
Qed.

Lemma authenticate_other clients reg ws f reg' h out :
  authenticate clients reg ws f = (reg', h, out) →
  (∀ client_id, h ≠ Serving client_id) → reg' = reg.
Proof.
  unfold authenticate. destruct f as [| |auth_data]; [congruence | congruence |].
  destruct (dict_get clients (auth_data !! "token")); [|congruence].
  destruct (negb _); [congruence|].
  case_bool_decide as Hn; [congruence|].
  intros [= <- <- <-] Hs.
  by destruct (Hs (py_str (as_str (auth_data !! "name")))).
Qed.

Lemma finally_lookup client_id reg name ws :
  finally client_id reg !! name = Some ws → reg !! name = Some ws.
Proof.
  unfold finally. destruct (truthy client_id && _); [|done].
  intros H. apply lookup_delete_Some in H. tauto.
Qed.

Lemma set_handler_well_formed clients s ws h reg :
  well_formed clients s →
  (∀ name ws', reg !! name = Some ws' → name ≠ "") →
  (∀ client_id, h = Serving client_id →
     client_id ≠ "" ∧ ∃ token, clients !! token = Some client_id) →
  well_formed clients (set_handler ws h s reg).
Proof.
  intros [_ Hserving] Hreg Hh. split; [exact Hreg|].
  intros ws' client_id. simpl.
  destruct (decide (ws = ws')) as [->|Hne].
  - rewrite lookup_insert_eq. intros [= ->]. by apply Hh.
  - rewrite lookup_insert_ne by done. apply Hserving.
Qed.

(** One resumption of a handler keeps the server well formed. *)
Lemma handler_well_formed clients s ws e :
  well_formed clients s → well_formed clients (handler clients s ws e).1.
Proof.
  intros Hwf. pose proof Hwf as [Hreg Hserving]. unfold handler.
  destruct (handlers s !! ws) as [[|client_id|]|] eqn:Hh; destruct e; simpl;
    try done; try (apply set_handler_well_formed; by auto).
  - destruct (authenticate clients (connected_clients s) ws f)
      as [[reg h] out] eqn:Ha. simpl.
    destruct h as [|client_id|].
    + apply set_handler_well_formed; [done | | done].
      by rewrite (authenticate_other _ _ _ _ _ _ _ Ha).
    + apply authenticate_serving in Ha as (-> & Hne & Htok).
      apply set_handler_well_formed; [done | | by intros ? [= <-]].
      intros name ws'. destruct (decide (client_id = name)) as [<-|Hn]; [done|].
      rewrite lookup_insert_ne by done. apply Hreg.
    + apply set_handler_well_formed; [done | | done].
      by rewrite (authenticate_other _ _ _ _ _ _ _ Ha).
  - apply set_handler_well_formed; [done | | done].
    intros name ws' H. apply finally_lookup in H. by apply (Hreg _ ws').
Qed.

Lemma run_well_formed clients evs : ∀ s,
  well_formed clients s → well_formed clients (run clients s evs).1.
Proof.
  induction evs as [|[ws e] rest IH]; intros s Hwf; [done|].
  simpl. pose proof (handler_well_formed clients s ws e Hwf) as Hs.
  destruct (handler clients s ws e) as [s' out]. specialize (IH s' Hs).
  by destruct (run clients s' rest) as [s'' out'].
Qed.

(** Every state the server can be in is well formed. *)
Lemma reachable_well_formed clients s :
  reachable clients s → well_formed clients s.
Proof.
  intros [evs <-]. apply run_well_formed. split.
  - intros name ws H. simpl in H. by rewrite lookup_empty in H.
  - intros ws client_id H. simpl in H. by rewrite lookup_empty in H.
Qed.

(** Once the handler of [ws] has returned, no resumption of any handler
    registers [ws]. *)
Lemma handler_keeps_finished clients s ws ws' e :
  handlers s !! ws = Some Finished →
  handlers (handler clients s ws' e).1 !! ws = Some Finished
  ∧ ∀ name, connected_clients (handler clients s ws' e).1 !! name = Some ws →
            connected_clients s !! name = Some ws.
Proof.
  intros Hfin. destruct (decide (ws' = ws)) as [->|Hne].
  { by rewrite finished_ignores. }
  unfold handler.
  destruct (handlers s !! ws') as [[|client_id|]|] eqn:Hh; destruct e; simpl;
    rewrite ?lookup_insert_ne by done; try done.
  - destruct (authenticate clients (connected_clients s) ws' f)
      as [[reg h] out] eqn:Ha. simpl.
    rewrite lookup_insert_ne by done. split; [done|].
    destruct h as [|client_id|].
    + by rewrite (authenticate_other _ _ _ _ _ _ _ Ha).
    + apply authenticate_serving in Ha as (-> & _ & _). intros name.
      destruct (decide (client_id = name)) as [<-|Hn].
      * rewrite lookup_insert_eq. congruence.
      * by rewrite lookup_insert_ne.
    + by rewrite (authenticate_other _ _ _ _ _ _ _ Ha).
  - split; [done|]. intros name. apply finally_lookup.
Qed.

Lemma run_keeps_finished clients ws evs : ∀ s,
  handlers s !! ws = Some Finished →
  ∀ name, connected_clients (run clients s evs).1 !! name = Some ws →
          connected_clients s !! name = Some ws.
Proof.
  induction evs as [|[ws' e] rest IH]; intros s Hfin name; [done|].
  simpl. destruct (handler_keeps_finished clients s ws ws' e Hfin) as [Hf Hr].
  destruct (handler clients s ws' e) as [s' out]. specialize (IH s' Hf name).
  destruct (run clients s' rest) as [s'' out']. simpl in *. auto.
Qed.

(** C5, as the code has it.  A first message whose token is bound to a
    non-empty name other than the claimed one closes the connection with
    the name-mismatch code, which differs from the invalid-token code; a
    first message whose token is bound to the empty name is closed with the
    invalid-token code, whatever name it claims.  Either way the registry
    is left as it was, the handler has returned, and nothing that happens
    later registers this connection. *)
Theorem name_mismatch_rejected (clients : gmap string string) (s : server)
  (websocket : conn) (auth_data : json_object) (token bound : string) :
  handlers s !! websocket = Some AwaitingAuth →
  auth_data !! "token" = Some (JString token) →
  clients !! token = Some bound →
  (bound ≠ "" → auth_data !! "name" ≠ Some (JString bound)) →
  ∃ s',
    handler clients s websocket (Message (Object auth_data))
    = (s', [if bool_decide (bound = "")
            then Close websocket invalid_token_code "Invalid token"
            else Close websocket name_mismatch_code "Name mismatch"])
    ∧ name_mismatch_code ≠ invalid_token_code
    ∧ connected_clients s' = connected_clients s
    ∧ handlers s' !! websocket = Some Finished
    ∧ ∀ evs name,
        connected_clients (run clients s' evs).1 !! name = Some websocket →
        connected_clients s !! name = Some websocket.
Proof.
  intros Hh Ht Hc Hname.
  exists (set_handler websocket Finished s (connected_clients s)).
  split.
  - unfold handler, authenticate. rewrite Hh, Ht. simpl. rewrite Hc. simpl.
    destruct (decide (bound = "")) as [->|Hb]; [done|].
    rewrite (bool_decide_eq_false_2 (bound = "")) by done.
    pose proof (proj2 (truthy_true bound) Hb) as Htrue. rewrite Htrue. simpl.
    rewrite bool_decide_eq_true_2; [done|].
    intros He. symmetry in He. apply as_str_Some in He. by apply Hname.
  - split; [done|]. split; [done|].
    assert (handlers (set_handler websocket Finished s (connected_clients s))
              !! websocket = Some Finished) as Hfin
      by (simpl; apply lookup_insert_eq).
    split; [done|]. intros evs name H.
    by apply (run_keeps_finished clients websocket evs _ Hfin name).
Qed.

Lemma name_mismatch_rejected_witness :
  handlers two_accepted !! 1%nat = Some AwaitingAuth
  ∧ auth "T1" "bob" !! "token" = Some (JString "T1")
  ∧ tokens !! "T1" = Some "alice"
  ∧ ("alice" ≠ "" → auth "T1" "bob" !! "name" ≠ Some (JString "alice"))
  ∧ (∃ s',
       handler tokens two_accepted 1%nat (Message (Object (auth "T1" "bob")))
       = (s', [Close 1%nat 4002 "Name mismatch"])
       ∧ connected_clients s' = connected_clients two_accepted)
  ∧ handlers one_accepted !! 1%nat = Some AwaitingAuth
  ∧ auth "T" "B" !! "token" = Some (JString "T")
  ∧ empty_binding !! "T" = Some ""
  ∧ ("" ≠ "" → auth "T" "B" !! "name" ≠ Some (JString ""))
  ∧ ∃ s',
      handler empty_binding one_accepted 1%nat
        (Message (Object (auth "T" "B")))
      = (s', [Close 1%nat 4001 "Invalid token"])
      ∧ connected_clients s' = connected_clients one_accepted.
Proof.
  assert (handlers two_accepted !! 1%nat = Some AwaitingAuth) as H1
    by reflexivity.
  assert (auth "T1" "bob" !! "token" = Some (JString "T1")) as H2
    by reflexivity.
  assert (tokens !! "T1" = Some "alice") as H3 by reflexivity.
  assert ("alice" ≠ "" → auth "T1" "bob" !! "name" ≠ Some (JString "alice"))
    as H4 by (intros _; vm_compute; discriminate).
  assert (handlers one_accepted !! 1%nat = Some AwaitingAuth) as E1
    by reflexivity.
  assert (auth "T" "B" !! "token" = Some (JString "T")) as E2 by reflexivity.
  assert (empty_binding !! "T" = Some "") as E3 by reflexivity.
  assert ("" ≠ "" → auth "T" "B" !! "name" ≠ Some (JString "")) as E4
    by (intros H; by destruct H).
  do 4 (split; [assumption|]). split.
  - destruct (name_mismatch_rejected tokens two_accepted 1%nat
                (auth "T1" "bob") "T1" "alice" H1 H2 H3 H4)
      as (s' & Hs & _ & Hreg & _).
    exists s'. split; [exact Hs | exact Hreg].
  - do 4 (split; [assumption|]).
    destruct (name_mismatch_rejected empty_binding one_accepted 1%nat
                (auth "T" "B") "T" "" E1 E2 E3 E4)
      as (s' & Hs & _ & Hreg & _).
    exists s'. split; [exact Hs | exact Hreg].
Defined.

(** C5 as worded does not hold for a token that the map binds to the empty
    name: the handler takes the token for unknown and closes with the
    invalid-token code. *)
Lemma name_mismatch_counterexample :
  handler empty_binding one_accepted 1%nat (Message (Object (auth "T" "B")))
  = (set_handler 1%nat Finished one_accepted (connected_clients one_accepted),
     [Close 1%nat 4001 "Invalid token"])
  ∧ ¬ mismatch_closure_as_stated.
Proof.
  assert (handler empty_binding one_accepted 1%nat
            (Message (Object (auth "T" "B")))
          = (set_handler 1%nat Finished one_accepted
               (connected_clients one_accepted),
             [Close 1%nat 4001 "Invalid token"])) as Hrun by reflexivity.
  split; [exact Hrun|]. intros H.
  destruct (H empty_binding one_accepted 1%nat (auth "T" "B") "T" "")
    as (s' & reason & Hs & _); try reflexivity.
  - vm_compute. discriminate.
  - rewrite Hrun in Hs. discriminate.
Qed.

(** The routing step for a target without a live session. *)
Lemma unknown_target_routed (clients : gmap string string) (s : server)
  (websocket : conn) (client_id : string) (data : json_object) :
  handlers s !! websocket = Some (Serving client_id) →
  (∀ target, data !! "target" = Some (JString target) →
             connected_clients s !! target = None) →
  handler clients s websocket (Message (Object data))
  = (s, if target_raises (data !! "target") then []
        else [Send websocket (error_envelope (data !! "target"))]).
Proof.
  intros Hh Hdead. unfold handler. rewrite Hh. unfold route.
  destruct (data !! "target") as [[target|[] [] shown]|] eqn:Ht; simpl;
    try done.
  rewrite (Hdead target eq_refl). by destruct (truthy target).
Qed.

(** C6, as the code has it.  A routed envelope from an authenticated
    session whose target names no live session is answered with one error
    envelope naming the target, sent to the sender's own connection, when
    the target is absent or is any value other than a non-empty array or
    object; when the target is a non-empty array or object the message is
    dropped and nothing is sent.  Either way nothing goes to any other
    connection, nothing is closed, and the server state stays as it was,
    the sender's handler still serving. *)
Theorem unknown_target_error (clients : gmap string string) (s : server)
  (websocket : conn) (client_id : string) (data : json_object) :
  handlers s !! websocket = Some (Serving client_id) →
  (∀ target, data !! "target" = Some (JString target) →
             connected_clients s !! target = None) →
  handler clients s websocket (Message (Object data))
  = (s, if target_raises (data !! "target") then []
        else [Send websocket (error_envelope (data !! "target"))])
  ∧ error_envelope (data !! "target") !! "type" = Some (JString "error")
  ∧ error_envelope (data !! "target") !! "message"
    = Some (JString ("Target " +:+ shown_json (data !! "target")
                     +:+ " not found")).
Proof.
  intros Hh Hdead.
  split; [exact (unknown_target_routed clients s websocket client_id data
                  Hh Hdead)|].
  split; reflexivity.
Qed.

Lemma unknown_target_error_witness :
  handlers two_sessions !! 1%nat = Some (Serving "alice")
  ∧ (∀ target, to_carol !! "target" = Some (JString target) →
               connected_clients two_sessions !! target = None)
  ∧ handler tokens two_sessions 1%nat (Message (Object to_carol))
    = (two_sessions,
       [Send 1%nat {[ "type" := JString "error";
                      "message" := JString "Target carol not found" ]}]).
Proof.
  assert (handlers two_sessions !! 1%nat = Some (Serving "alice")) as H1
    by reflexivity.
  assert (∀ target, to_carol !! "target" = Some (JString target) →
                    connected_clients two_sessions !! target = None) as H2.
  { intros target Ht.
    assert (to_carol !! "target" = Some (JString "carol")) as Hc
      by reflexivity.
    rewrite Hc in Ht. injection Ht as <-. reflexivity. }
  split; [exact H1|]. split; [exact H2|].
  exact (proj1 (unknown_target_error tokens two_sessions 1%nat "alice"
                  to_carol H1 H2)).
Defined.

(** C6 as worded does not hold for a target that is a non-empty array: it
    names no live session, the membership test of line 121 raises, the
    [except] of line 136 drops the message, and no error envelope is
    sent. *)
Lemma unknown_target_counterexample :
  handler tokens two_sessions 1%nat (Message (Object to_a_list))
  = (two_sessions, [])
  ∧ ¬ unknown_target_as_stated.
Proof.
  assert (handler tokens two_sessions 1%nat (Message (Object to_a_list))
          = (two_sessions, [])) as Hrun by reflexivity.
  split; [exact Hrun|]. intros H.
  specialize (H tokens two_sessions 1%nat "alice" to_a_list eq_refl).
  rewrite Hrun in H.
  assert (∀ target, to_a_list !! "target" = Some (JString target) →
                    connected_clients two_sessions !! target = None) as Hno.
  { intros target Ht.
    assert (to_a_list !! "target" = Some bob_in_a_list) as Hl by reflexivity.
    rewrite Hl in Ht. discriminate. }
  specialize (H Hno). discriminate.
Qed.

(** C7.  A routed envelope from an authenticated session whose target
    names a live session is sent to that session's connection and to no
    other; the forwarded message carries the sending handler's
    authenticated name as [sender], whatever the client had put there, and
    every other field as received.  The authenticated name is one that the
    token map binds. *)
Theorem forward_with_sender (clients : gmap string string) (s : server)
  (websocket target_ws : conn) (client_id target : string)
  (data : json_object) :
  reachable clients s →
  handlers s !! websocket = Some (Serving client_id) →
  data !! "target" = Some (JString target) →
  connected_clients s !! target = Some target_ws →
  ∃ forwarded,
    handler clients s websocket (Message (Object data))
    = (s, [Send target_ws forwarded])
    ∧ forwarded !! "sender" = Some (JString client_id)
    ∧ (∀ field, field ≠ "sender" → forwarded !! field = data !! field)
    ∧ ∃ token, clients !! token = Some client_id.
Proof.
  intros Hreach Hh Ht Hlive.
  destruct (reachable_well_formed clients s Hreach) as [Hreg Hserving].
  exists (<["sender" := JString client_id]> data).
  split; [|split; [apply lookup_insert_eq|split]].
  - unfold handler. rewrite Hh. unfold route. rewrite Ht. simpl.
    pose proof (Hreg target target_ws Hlive) as Hne.
    apply truthy_true in Hne. by rewrite Hne, Hlive.
  - intros field Hf. by rewrite lookup_insert_ne.
  - by apply (Hserving websocket).
Qed.

Lemma forward_with_sender_witness :
  reachable tokens two_sessions
  ∧ handlers two_sessions !! 1%nat = Some (Serving "alice")
  ∧ to_bob !! "target" = Some (JString "bob")
  ∧ connected_clients two_sessions !! "bob" = Some 2%nat
  ∧ ∃ forwarded,
      handler tokens two_sessions 1%nat (Message (Object to_bob))
      = (two_sessions, [Send 2%nat forwarded])
      ∧ forwarded !! "sender" = Some (JString "alice")
      ∧ forwarded !! "payload" = Some (JString "deadbeef").
Proof.
  assert (reachable tokens two_sessions) as H0 by (by exists alice_and_bob).
  assert (handlers two_sessions !! 1%nat = Some (Serving "alice")) as H1
    by reflexivity.
  assert (to_bob !! "target" = Some (JString "bob")) as H2 by reflexivity.
  assert (connected_clients two_sessions !! "bob" = Some 2%nat) as H3
    by reflexivity.
  do 4 (split; [assumption|]).
  destruct (forward_with_sender tokens two_sessions 1%nat 2%nat "alice" "bob"
              to_bob H0 H1 H2 H3) as (forwarded & Hs & Hsender & Hfields & _).
  exists forwarded. split; [exact Hs|]. split; [exact Hsender|].
  rewrite (Hfields "payload") by discriminate. reflexivity.
Defined.

(** The end-to-end scenario: alice and bob authenticate, alice sends a
    packet envelope for bob, and bob's connection is sent the envelope with
    the sender added. *)
Example alice_to_bob :
  (run tokens initial
     (alice_and_bob ++ [(1%nat, Message (Object to_bob))])).2
  = [Send 1%nat authenticated_reply; Send 2%nat authenticated_reply;
     Send 2%nat {[ "target" := JString "bob"; "type" := JString "packet";
                   "mode" := JString "request";
                   "payload" := JString "deadbeef";
                   "sender" := JString "alice" ]}].
Proof. vm_compute. reflexivity. Qed.

(** A sender field supplied by the client is replaced. *)
Example forged_sender_replaced :
  handler tokens two_sessions 1%nat
    (Message (Object (<["sender" := JString "mallory"]> to_bob)))
  = (two_sessions, [Send 2%nat (<["sender" := JString "alice"]> to_bob)]).
Proof. vm_compute. reflexivity. Qed.

(** C9.  When a second connection authenticates under a name that is
    already registered, the registry entry is overwritten and nothing is
    sent to or closed on the older connection.  When the older connection
    then closes, its handler deletes the entry of that name although it
    belongs to the newer connection, whose handler is still serving; a
    message to that name from any authenticated session is then answered
    with the target-not-found error. *)
Theorem duplicate_name_eviction (clients : gmap string string) (s : server)
  (older newer : conn) (auth_data : json_object) (token name : string) :
  older ≠ newer →
  handlers s !! older = Some AwaitingAuth →
  handlers s !! newer = Some AwaitingAuth →
  auth_data !! "token" = Some (JString token) →
  auth_data !! "name" = Some (JString name) →
  clients !! token = Some name →
  name ≠ "" →
  ∃ s1 s2 s3,
    handler clients s older (Message (Object auth_data))
    = (s1, [Send older authenticated_reply])
    ∧ connected_clients s1 !! name = Some older
    ∧ handler clients s1 newer (Message (Object auth_data))
      = (s2, [Send newer authenticated_reply])
    ∧ connected_clients s2 !! name = Some newer
    ∧ handler clients s2 older ConnectionClosed = (s3, [])
    ∧ connected_clients s3 !! name = None
    ∧ handlers s3 !! newer = Some (Serving name)
    ∧ ∀ websocket client_id data,
        handlers s3 !! websocket = Some (Serving client_id) →
        data !! "target" = Some (JString name) →
        handler clients s3 websocket (Message (Object data))
        = (s3, [Send websocket (error_envelope (Some (JString name)))]).
Proof.
  intros Hne Ho Hn Ht Hnm Hc Hname.
  set (s1 := set_handler older (Serving name) s
               (<[name := older]> (connected_clients s))).
  set (s2 := set_handler newer (Serving name) s1
               (<[name := newer]> (connected_clients s1))).
  set (s3 := set_handler older Finished s2
               (delete name (connected_clients s2))).
  exists s1, s2, s3.
  assert (handlers s1 !! newer = Some AwaitingAuth) as Hn1
    by (simpl; by rewrite lookup_insert_ne).
  assert (handlers s2 !! older = Some (Serving name)) as Ho2.
  { simpl. rewrite lookup_insert_ne by done. apply lookup_insert_eq. }
  assert (connected_clients s2 !! name = Some newer) as Hr2
    by (simpl; apply lookup_insert_eq).
  assert (connected_clients s3 !! name = None) as Hr3
    by (simpl; apply lookup_delete_eq).
  split.
  { unfold handler. rewrite Ho.
    by rewrite (authenticate_ok clients _ older auth_data token name). }
  split; [simpl; apply lookup_insert_eq|].
  split.
  { unfold handler. rewrite Hn1.
    by rewrite (authenticate_ok clients _ newer auth_data token name). }
  split; [done|].
  split.
  { unfold handler. rewrite Ho2. unfold finally. rewrite Hr2.
    apply truthy_true in Hname. rewrite Hname.
    by rewrite bool_decide_eq_true_2 by eauto. }
  split; [done|].
  split.
  { simpl. rewrite lookup_insert_ne by done. apply lookup_insert_eq. }
  intros websocket client_id data Hh Hd.
  rewrite (unknown_target_routed clients s3 websocket client_id data Hh).
  - by rewrite Hd.
  - intros target Htg. rewrite Hd in Htg. by injection Htg as <-.
Qed.

Lemma duplicate_name_eviction_witness :
  1%nat ≠ 2%nat
  ∧ handlers two_accepted !! 1%nat = Some AwaitingAuth
  ∧ handlers two_accepted !! 2%nat = Some AwaitingAuth
  ∧ auth "T1" "alice" !! "token" = Some (JString "T1")
  ∧ auth "T1" "alice" !! "name" = Some (JString "alice")
  ∧ tokens !! "T1" = Some "alice"
  ∧ "alice" ≠ ""
  ∧ ∃ s2 s3,
      connected_clients s2 !! "alice" = Some 2%nat
      ∧ handler tokens s2 1%nat ConnectionClosed = (s3, [])
      ∧ connected_clients s3 !! "alice" = None
      ∧ handlers s3 !! 2%nat = Some (Serving "alice").
Proof.
  assert (1%nat ≠ 2%nat) as H0 by discriminate.
  assert (handlers two_accepted !! 1%nat = Some AwaitingAuth) as H1
    by reflexivity.
  assert (handlers two_accepted !! 2%nat = Some AwaitingAuth) as H2
    by reflexivity.
  assert (auth "T1" "alice" !! "token" = Some (JString "T1")) as H3
    by reflexivity.
  assert (auth "T1" "alice" !! "name" = Some (JString "alice")) as H4
    by reflexivity.
  assert (tokens !! "T1" = Some "alice") as H5 by reflexivity.
  assert ("alice" ≠ "") as H6 by discriminate.
  do 7 (split; [assumption|]).
  destruct (duplicate_name_eviction tokens two_accepted 1%nat 2%nat
              (auth "T1" "alice") "T1" "alice" H0 H1 H2 H3 H4 H5 H6)
    as (s1 & s2 & s3 & _ & _ & _ & Hr2 & Hclose & Hr3 & Hn & _).
  exists s2, s3. auto.
Defined.

(** The same on a run: bob, on connection 3, writes to alice after her
    first connection has closed and while her second one is open. *)
Example evicted_alice_unreachable :
  (run tokens initial
     [(1%nat, Accept); (2%nat, Accept); (3%nat, Accept);
      (1%nat, Message (Object (auth "T1" "alice")));
      (2%nat, Message (Object (auth "T1" "alice")));
      (3%nat, Message (Object (auth "T2" "bob")));
      (1%nat, ConnectionClosed);
      (3%nat, Message (Object {[ "target" := JString "alice" ]}))]).2
  = [Send 1%nat authenticated_reply; Send 2%nat authenticated_reply;
     Send 3%nat authenticated_reply;
     Send 3%nat {[ "type" := JString "error";
                   "message" := JString "Target alice not found" ]}].
Proof. vm_compute. reflexivity. Qed.

End ServerFacts.

(** ** The relay client: injection, the receive loop and reconnection *)

Module ClientFacts.
Import Client Samples.

Lemma with_nat_same (c : client) : with_nat c (nat_table c) = c.
Proof. by destruct c. Qed.

Lemma goto_same (c : client) : goto c (at_ c) = c.
Proof. by destruct c. Qed.

(** Whatever arrives, [handle_incoming_packet] leaves the NAT table alone
    and injects nothing: at most it logs an injection error. *)
Lemma handle_incoming_packet_effects nat_table data t out :
  handle_incoming_packet nat_table data = Some (t, out) →
  t = nat_table ∧ (out = [] ∨ out = [Log InjectionError]).
Proof.
  unfold handle_incoming_packet.
  destruct (data !! "payload" ≫= fromhex_json) as [payload|]; [|done].
  repeat case_bool_decide; intros [= <- <-]; eauto.
Qed.

Lemma step_half_dead cfg c e :
  half_dead c → e ≠ Stop →
  half_dead (step cfg c e).1
  ∧ Forall (λ a, is_send_effect a = true) (step cfg c e).2.
Proof.
  intros (Hrun & s & Hat & Hs) He.
  destruct c as [rn cb q t ph]. simpl in *. subst rn ph.
  destruct e; try done; destruct s; try done; unfold step; simpl;
    try (split; [split; [done | eexists; split; [done | done]]
                | repeat constructor]);
    destruct q as [|m q]; simpl;
    (split; [split; [done | eexists; split; [done | done]]
            | repeat constructor]).
Qed.

Lemma run_half_dead cfg evs : ∀ c,
  half_dead c → Stop ∉ evs →
  half_dead (run cfg c evs).1
  ∧ Forall (λ a, is_send_effect a = true) (run cfg c evs).2.
Proof.
  induction evs as [|e rest IH]; intros c Hc Hstop; [by split|].
  apply not_elem_of_cons in Hstop as [He Hrest].
  destruct (step_half_dead cfg c e Hc) as [Hc' Hout]; [done|].
  simpl. destruct (step cfg c e) as [c' out].
  destruct (IH c' Hc' Hrest) as [Hc'' Hout'].
  destruct (run cfg c' rest) as [c'' out']. simpl in *.
  split; [done | by apply Forall_app].
Qed.

Lemma send_effect_not_status b (out : list action) :
  Forall (λ a, is_send_effect a = true) out → Status b ∉ out.
Proof.
  intros Hall Hin. rewrite Forall_forall in Hall. by apply Hall in Hin.
Qed.

(** C1 fails on the code.  An envelope with [mode = request] and a valid
    payload is decoded and then dropped by the [pass] of line 128: the NAT
    table is left as it was and nothing is injected, inbound or outbound;
    the receive loop goes on to the next message with no effect at all. *)
Theorem request_is_not_proxied (cfg : config) (c : client) (s : send_task)
  (data : json_object) (payload : bytes) :
  at_ c = Active Receiving s →
  data !! "type" = Some (JString "packet") →
  data !! "mode" = Some (JString "request") →
  data !! "payload" ≫= fromhex_json = Some payload →
  handle_incoming_packet (nat_table c) data = Some (nat_table c, [])
  ∧ step cfg c (Received (Object data)) = (c, []).
Proof.
  intros Hat Htype Hmode Hpl.
  assert (handle_incoming_packet (nat_table c) data = Some (nat_table c, []))
    as Hh.
  { unfold handle_incoming_packet. rewrite Hpl, Hmode. reflexivity. }
  split; [done|].
  unfold step. rewrite Hat. unfold on_message. rewrite Htype.
  change (bool_decide (as_str (Some (JString "packet")) = Some "packet"))
    with true.
  cbv iota. rewrite Hh. by rewrite with_nat_same.
Qed.

Lemma request_is_not_proxied_witness :
  at_ active_client = Active Receiving AwaitingQueue
  ∧ request_for_bob !! "type" = Some (JString "packet")
  ∧ request_for_bob !! "mode" = Some (JString "request")
  ∧ request_for_bob !! "payload" ≫= fromhex_json
    = Some (String "222" (String "173" (String "190" (String "239" ""))))
  ∧ step client_cfg active_client (Received (Object request_for_bob))
    = (active_client, []).
Proof.
  do 4 (split; [reflexivity|]).
  exact (proj2 (request_is_not_proxied client_cfg active_client AwaitingQueue
                  request_for_bob _ eq_refl eq_refl eq_refl eq_refl)).
Defined.

(** C2 fails on the code.  [bytes.fromhex] is called before the [try] of
    [handle_incoming_packet], so a payload that is not valid hex raises
    into [receive_handler], whose [except] is outside the loop: the error
    is logged and the connection is not closed, but the receive task has
    returned, and while the client keeps running no later frame has any
    effect: every effect from then on is one of the send task's. *)
Theorem bad_hex_ends_receiving (cfg : config) (c : client) (s : send_task)
  (data : json_object) (payload : string) (later : list event) :
  running c = true →
  at_ c = Active Receiving s →
  s ≠ SendReturned →
  data !! "type" = Some (JString "packet") →
  data !! "payload" = Some (JString payload) →
  Hex.fromhex payload = None →
  Stop ∉ later →
  step cfg c (Received (Object data))
  = (goto c (Active RecvReturned s), [Log ReceiveError])
  ∧ (∀ f, step cfg (goto c (Active RecvReturned s)) (Received f)
          = (goto c (Active RecvReturned s), []))
  ∧ Forall (λ a, is_send_effect a = true)
      (run cfg (goto c (Active RecvReturned s)) later).2.
Proof.
  intros Hrun Hat Hs Htype Hpl Hbad Hstop.
  split; [|split].
  - unfold step. rewrite Hat. unfold on_message, handle_incoming_packet.
    rewrite Htype.
    change (bool_decide (as_str (Some (JString "packet")) = Some "packet"))
      with true.
    cbv iota. rewrite Hpl. simpl. rewrite Hbad. by destruct s.
  - intros f. unfold step. simpl. by destruct s.
  - apply run_half_dead; [|done]. split; [done|]. by exists s.
Qed.

Lemma bad_hex_ends_receiving_witness :
  running active_client = true
  ∧ at_ active_client = Active Receiving AwaitingQueue
  ∧ AwaitingQueue ≠ SendReturned
  ∧ response_bad_hex !! "type" = Some (JString "packet")
  ∧ response_bad_hex !! "payload" = Some (JString "abc")
  ∧ Hex.fromhex "abc" = None
  ∧ (Stop ∉ [Received (Object response_ok)])
  ∧ (run client_cfg active_client
       [Received (Object response_bad_hex); Received (Object response_ok)]).2
    = [Log ReceiveError].
Proof.
  assert (AwaitingQueue ≠ SendReturned) as Hs by discriminate.
  assert (Stop ∉ [Received (Object response_ok)]) as Hstop.
  { intros H. apply list_elem_of_singleton in H. discriminate. }
  do 2 (split; [reflexivity|]). split; [exact Hs|].
  do 3 (split; [reflexivity|]). split; [exact Hstop|].
  destruct (bad_hex_ends_receiving client_cfg active_client AwaitingQueue
              response_bad_hex "abc" [Received (Object response_ok)]
              eq_refl eq_refl Hs eq_refl eq_refl eq_refl Hstop)
    as (Hfirst & Hlater & _).
  cbn [run]. rewrite Hfirst, (Hlater (Object response_ok)). reflexivity.
Defined.

(** The same frame with nothing before it is decoded and reaches the
    response branch, whose failure is logged: after the bad payload it is
    not even read. *)
Example response_is_read :
  (run client_cfg active_client [Received (Object response_ok)]).2
  = [Log InjectionError].
Proof. vm_compute. reflexivity. Qed.

(** *** Reconnection *)

(** A failed connection attempt is reported at once and followed by the
    fixed wait. *)
Lemma connect_failure_backs_off cfg c :
  at_ c = Connecting →
  step cfg c ConnectFailed
  = (goto c (Backoff reconnect_delay),
     [Log ConnectionError] ++ notify c false ++ [Sleep reconnect_delay]).
Proof. intros Hat. unfold step. by rewrite Hat. Qed.

(** So is a failure during the handshake. *)
Lemma handshake_failure_backs_off cfg c e :
  at_ c = AuthReceiving →
  e = ReceiveFailed ∨ e = StreamEnded →
  step cfg c e
  = (goto c (Backoff reconnect_delay),
     [CloseWs; Log ConnectionError] ++ notify c false
     ++ [Sleep reconnect_delay]).
Proof. intros Hat [-> | ->]; unfold step; by rewrite Hat. Qed.

(** Until the wait is over the client does nothing at all. *)
Lemma no_attempt_before_delay cfg evs : ∀ c remaining,
  at_ c = Backoff remaining →
  (elapsed evs < remaining)%N →
  (run cfg c evs).2 = []
  ∧ ∃ r, at_ (run cfg c evs).1 = Backoff r.
Proof.
  induction evs as [|e rest IH]; intros c remaining Hat Hlt.
  - split; [done | by exists remaining].
  - assert (∃ c' r', step cfg c e = (c', []) ∧ at_ c' = Backoff r'
                     ∧ (elapsed rest < r')%N) as (c' & r' & Hstep & Hat' & Hlt').
    { destruct e; simpl in Hlt; unfold step; rewrite ?Hat;
        try (by exists c, remaining).
      - by exists (stopped c), remaining.
      - by exists (started c), remaining.
      - by exists (with_queue c (packet_queue c ++ [msg])), remaining.
      - destruct (N.leb_spec remaining seconds) as [Hle|Hgt]; [lia|].
        exists (goto c (Backoff (remaining - seconds))), (remaining - seconds)%N.
        repeat split. lia. }
    simpl. rewrite Hstep.
    destruct (IH c' r' Hat' Hlt') as [Hout Hr].
    destruct (run cfg c' rest) as [c'' out']. simpl in *. by subst.
Qed.

(** When it is over, and the client is still running, the next attempt
    starts, with the status callback told first. *)
Lemma attempt_after_delay cfg c remaining d :
  at_ c = Backoff remaining →
  running c = true →
  (remaining <= d)%N →
  step cfg c (Elapsed d)
  = (goto c Connecting, notify c false ++ [Connect (server_url cfg)]).
Proof.
  intros Hat Hrun Hle. unfold step. rewrite Hat.
  destruct (N.leb_spec remaining d) as [_|Hgt]; [|lia].
  unfold loop_head. by rewrite Hrun.
Qed.

(** There is no limit on the attempts and the wait does not grow: after
    any number of failures the client is where it was. *)
Lemma retries_without_limit cfg c n :
  running c = true →
  at_ c = Connecting →
  run cfg c (failed_attempts n)
  = (c, concat (replicate n
                  ([Log ConnectionError] ++ notify c false
                   ++ [Sleep reconnect_delay] ++ notify c false
                   ++ [Connect (server_url cfg)]))).
Proof.
  intros Hrun Hat. induction n as [|n IH]; [done|].
  cbn [failed_attempts run]. rewrite connect_failure_backs_off by done.
  rewrite (attempt_after_delay cfg _ reconnect_delay) by (done || reflexivity).
  assert (goto (goto c (Backoff reconnect_delay)) Connecting = c) as ->
    by (destruct c; simpl in *; by subst).
  rewrite IH. cbn [replicate concat].
  change (notify (goto c (Backoff reconnect_delay)) false)
    with (notify c false).
  by rewrite <- !app_assoc.
Qed.

(** C8 fails on the code for a connection that is lost after the
    handshake.  [receive_handler] catches the error itself and returns,
    [send_handler] never returns while the client is running, so
    [asyncio.gather] never returns either: as long as the client is not
    stopped the status callback is not called, nothing sleeps and no new
    connection attempt is made, whatever happens and however long it
    lasts. *)
Theorem lost_connection_never_reconnects (cfg : config) (c : client)
  (s : send_task) (evs : list event) :
  running c = true →
  at_ c = Active Receiving s →
  s ≠ SendReturned →
  Stop ∉ evs →
  ∃ out,
    (run cfg c (ReceiveFailed :: evs)).2 = Log ReceiveError :: out
    ∧ Forall (λ a, is_send_effect a = true) out
    ∧ (∀ b, Status b ∉ Log ReceiveError :: out)
    ∧ (∀ d, Sleep d ∉ Log ReceiveError :: out)
    ∧ (∀ url, Connect url ∉ Log ReceiveError :: out)
    ∧ half_dead (run cfg c (ReceiveFailed :: evs)).1.
Proof.
  intros Hrun Hat Hs Hstop.
  assert (step cfg c ReceiveFailed
          = (goto c (Active RecvReturned s), [Log ReceiveError])) as Hstep
    by (unfold step; rewrite Hat; by destruct s).
  assert (half_dead (goto c (Active RecvReturned s))) as Hdead
    by (split; [done | by exists s]).
  destruct (run_half_dead cfg evs _ Hdead Hstop) as [Hdead' Hout].
  cbn [run]. rewrite Hstep.
  destruct (run cfg (goto c (Active RecvReturned s)) evs) as [c' out].
  simpl in *. exists out. split; [done|]. split; [done|].
  rewrite Forall_forall in Hout.
  split; [|split; [|split; [|done]]]; intros x Hin;
    (apply elem_of_cons in Hin as [Hin|Hin]; [discriminate|]);
    by apply Hout in Hin.
Qed.

Lemma lost_connection_never_reconnects_witness :
  running active_client = true
  ∧ at_ active_client = Active Receiving AwaitingQueue
  ∧ AwaitingQueue ≠ SendReturned
  ∧ (Stop ∉ [Elapsed 3600; Put to_bob; SendFailed; Elapsed 3600])
  ∧ ∃ out,
      (run client_cfg active_client
         (ReceiveFailed
          :: [Elapsed 3600; Put to_bob; SendFailed; Elapsed 3600])).2
      = Log ReceiveError :: out
      ∧ ∀ b, Status b ∉ Log ReceiveError :: out.
Proof.
  assert (AwaitingQueue ≠ SendReturned) as Hs by discriminate.
  assert (Stop ∉ [Elapsed 3600; Put to_bob; SendFailed; Elapsed 3600])
    as Hstop.
  { intros H. repeat (apply elem_of_cons in H as [H|H]; [discriminate|]).
    by apply elem_of_nil in H. }
  do 2 (split; [reflexivity|]). split; [exact Hs|]. split; [exact Hstop|].
  destruct (lost_connection_never_reconnects client_cfg active_client
              AwaitingQueue _ eq_refl eq_refl Hs Hstop)
    as (out & Hout & _ & Hstatus & _).
  exists out. split; [exact Hout | exact Hstatus].
Defined.

(** The run of the witness, in full: an hour after the connection is lost
    a diverted packet is still handed to the dead connection, and another
    hour later nothing else has happened. *)
Example lost_connection_run :
  (run client_cfg active_client
     [ReceiveFailed; Elapsed 3600; Put to_bob; SendFailed; Elapsed 3600]).2
  = [Log ReceiveError; WsSend to_bob; Log SendError].
Proof. vm_compute. reflexivity. Qed.

(** A refused connection, for comparison: reported, then five seconds,
    then the next attempt. *)
Example refused_connection_run :
  (connect_to_server client_cfg true
     [ConnectFailed; Elapsed 2; Elapsed 2; Elapsed 1]).2
  = [Status false; Connect "wss://relay.example/ws";
     Log ConnectionError; Status false; Sleep 5;
     Status false; Connect "wss://relay.example/ws"].
Proof. vm_compute. reflexivity. Qed.

End ClientFacts.

(** ** More about the capture loop *)

Module CaptureMore.
Import Capture Samples CaptureFacts.

(** On keywords that all encode, the scan finds a match exactly when some
    keyword occurs in the payload. *)
Lemma has_keyword_texts (kws : list string) pl :
  has_keyword (texts kws) pl = true ↔ ∃ kw, kw ∈ kws ∧ bytes_in kw pl = true.
Proof.
  induction kws as [|k rest IH]; simpl.
  - split; [done|]. intros (kw & Hin & _). by apply elem_of_nil in Hin.
  - rewrite orb_true_iff, IH. split.
    + intros [Hk | (kw & Hin & Hkw)].
      * exists k. split; [apply list_elem_of_here | done].
      * exists kw. split; [by apply list_elem_of_further | done].
    + intros (kw & Hin & Hkw).
      apply elem_of_cons in Hin as [->|Hin]; [by left|].
      right. by exists kw.
Qed.

(** The loop body reads the keyword list in two places only: the test of
    line 189 and the scan. *)
Lemma classify_ext kws kws' m p :
  (kws = [] ↔ kws' = []) →
  (∀ pl, has_keyword kws pl = has_keyword kws' pl) →
  classify kws m p = classify kws' m p.
Proof.
  intros Hnil Hscan. unfold classify.
  destruct (udp p && bool_decide (dst_port p = Some 443)); [done|].
  destruct kws as [|k rest], kws' as [|k' rest'].
  - done.
  - pose proof (proj1 Hnil eq_refl). discriminate.
  - pose proof (proj2 Hnil eq_refl). discriminate.
  - destruct (bool_decide _ || bool_decide _); [done|].
    destruct (payload p) as [pl|]; [|done]. destruct (truthy pl); [|done].
    by rewrite !scan_keywords_result, (Hscan pl).
Qed.

Lemma capture_loop_ext target kws kws' cs : ∀ m,
  (kws = [] ↔ kws' = []) →
  (∀ pl, has_keyword kws pl = has_keyword kws' pl) →
  capture_loop target kws m cs = capture_loop target kws' m cs.
Proof.
  induction cs as [|c rest IH]; intros m Hnil Hscan; [done|].
  cbn [capture_loop]. destruct (running_now c); [|done].
  rewrite (classify_ext kws kws' m (pkt c) Hnil Hscan).
  destruct (classify kws' m (pkt c)) as [d m']. by rewrite IH.
Qed.

Lemma envelope_fields (target : string) (p : packet) :
  request_envelope target p !! "payload" ≫= Client.fromhex_json = Some (raw p)
  ∧ request_envelope target p !! "target" = Some (JString target)
  ∧ request_envelope target p !! "type" = Some (JString "packet")
  ∧ request_envelope target p !! "mode" = Some (JString "request")
  ∧ request_envelope target p !! "sender" = None.
Proof.
  unfold request_envelope.
  split; [|split; [|split; [|split]]].
  - rewrite !lookup_insert_ne by done. rewrite lookup_singleton_eq. simpl.
    apply HexFacts.fromhex_hex.
  - by rewrite lookup_insert_eq.
  - rewrite lookup_insert_ne by done. by rewrite lookup_insert_eq.
  - rewrite !lookup_insert_ne by done. by rewrite lookup_insert_eq.
  - rewrite !lookup_insert_ne by done. by rewrite lookup_singleton_ne.
Qed.

(** X1.  The payload of the envelope queued for a diverted packet decodes,
    with the decoding of the receiving client, to the packet's raw bytes,
    and the envelope is a request packet addressed to the given target. *)
Theorem diverted_payload_decodes (target : string) (p : packet) :
  request_envelope target p !! "payload" ≫= Client.fromhex_json = Some (raw p)
  ∧ request_envelope target p !! "target" = Some (JString target)
  ∧ request_envelope target p !! "type" = Some (JString "packet")
  ∧ request_envelope target p !! "mode" = Some (JString "request")
  ∧ request_envelope target p !! "sender" = None.
Proof. apply envelope_fields. Qed.

(** X2.  Without keywords (coarse mode), while the client is running and
    the queue is ready, the loop queues every captured packet that is not
    UDP to port 443, in capture order, and re-injects none. *)
Theorem coarse_mode_forwards_in_order (target : string) (cs : list capture) :
  ∀ m : memo,
  Forall (λ c, running_now c = true ∧ queue_ready c = true) cs →
  capture_loop target [] m cs
  = map (λ c, Enqueue (request_envelope target (pkt c)))
        (List.filter (λ c, negb (quic_bound (pkt c))) cs).
Proof.
  induction cs as [|c rest IH]; intros m Hall; [done|].
  apply Forall_cons in Hall as [[Hrun Hready] Hrest].
  cbn [capture_loop List.filter]. rewrite Hrun. unfold classify, quic_bound.
  destruct (udp (pkt c) && bool_decide (dst_port (pkt c) = Some 443)); simpl.
  - by apply IH.
  - rewrite Hready. simpl. f_equal. by apply IH.
Qed.

Lemma coarse_mode_forwards_in_order_witness :
  Forall (λ c, running_now c = true ∧ queue_ready c = true)
    [{| running_now := true; queue_ready := true; pkt := tcp_ack |};
     {| running_now := true; queue_ready := true; pkt := quic |};
     {| running_now := true; queue_ready := true; pkt := tcp_hello |}]
  ∧ capture_loop "bob" [] no_memo
      [{| running_now := true; queue_ready := true; pkt := tcp_ack |};
       {| running_now := true; queue_ready := true; pkt := quic |};
       {| running_now := true; queue_ready := true; pkt := tcp_hello |}]
    = [Enqueue (request_envelope "bob" tcp_ack);
       Enqueue (request_envelope "bob" tcp_hello)].
Proof.
  assert (Forall (λ c, running_now c = true ∧ queue_ready c = true)
            [{| running_now := true; queue_ready := true; pkt := tcp_ack |};
             {| running_now := true; queue_ready := true; pkt := quic |};
             {| running_now := true; queue_ready := true; pkt := tcp_hello |}])
    as Hall by (repeat constructor).
  split; [exact Hall|].
  exact (coarse_mode_forwards_in_order "bob" _ no_memo Hall).
Defined.

(** X3.  With keywords configured, a packet that is not UDP to port 443,
    whose flow and destination are not marked and in whose payload, if it
    has one that is not empty, the scan finds no keyword, is passed: the
    sets stay as they are and the very packet that was captured is
    re-injected. *)
Theorem unmatched_packet_is_reinjected (target : string) (kws : list keyword)
  (m : memo) (c : capture) (rest : list capture) :
  kws ≠ [] →
  running_now c = true →
  quic_bound (pkt c) = false →
  flow_id (pkt c) ∉ diverted_flows m →
  dst_addr (pkt c) ∉ diverted_ips m →
  (∀ pl, payload (pkt c) = Some pl → pl ≠ "" → has_keyword kws pl = false) →
  classify kws m (pkt c) = (Pass, m)
  ∧ capture_loop target kws m (c :: rest)
    = Reinject (pkt c) :: capture_loop target kws m rest.
Proof.
  intros Hk Hrun Hq Hf Hi Hpl.
  assert (classify kws m (pkt c) = (Pass, m)) as Hc.
  { unfold classify. unfold quic_bound in Hq. rewrite Hq.
    destruct kws as [|k kws']; [done|].
    rewrite (bool_decide_eq_false_2 _ Hf), (bool_decide_eq_false_2 _ Hi).
    cbn [orb]. destruct (payload (pkt c)) as [pl|]; [|done].
    destruct (truthy pl) eqn:Ht; [|done].
    rewrite scan_keywords_result, (Hpl pl eq_refl); [done|].
    by apply truthy_true. }
  split; [done|]. cbn [capture_loop]. by rewrite Hrun, Hc.
Qed.

Lemma unmatched_packet_is_reinjected_witness :
  [Text "example"] ≠ []
  ∧ quic_bound tcp_other_flow = false
  ∧ (flow_id tcp_other_flow ∉ diverted_flows no_memo)
  ∧ (dst_addr tcp_other_flow ∉ diverted_ips no_memo)
  ∧ capture_loop "bob" [Text "example"] no_memo
      [{| running_now := true; queue_ready := true; pkt := tcp_other_flow |}]
    = [Reinject tcp_other_flow].
Proof.
  assert ([Text "example"] ≠ []) as Hk by discriminate.
  assert (flow_id tcp_other_flow ∉ diverted_flows no_memo) as Hf
    by (simpl; apply not_elem_of_empty).
  assert (dst_addr tcp_other_flow ∉ diverted_ips no_memo) as Hi
    by (simpl; apply not_elem_of_empty).
  assert (∀ pl, payload tcp_other_flow = Some pl → pl ≠ "" →
                has_keyword [Text "example"] pl = false) as Hpl
    by (intros pl [= <-] _; reflexivity).
  split; [exact Hk|]. split; [reflexivity|]. split; [exact Hf|].
  split; [exact Hi|].
  exact (proj2 (unmatched_packet_is_reinjected "bob" [Text "example"] no_memo
                  {| running_now := true; queue_ready := true;
                     pkt := tcp_other_flow |} [] Hk eq_refl eq_refl Hf Hi Hpl)).
Defined.

(** X4.  Once [self.running] is found false the loop is left: the packet
    captured at that moment and every later one are neither classified,
    nor re-injected, nor queued. *)
Theorem loop_ends_when_stopped (target : string) (kws : list keyword)
  (before : list capture) (c : capture) (after : list capture) :
  ∀ m : memo,
  running_now c = false →
  capture_loop target kws m (before ++ c :: after)
  = capture_loop target kws m before.
Proof.
  induction before as [|b rest IH]; intros m Hstop.
  - simpl. by rewrite Hstop.
  - cbn [app capture_loop]. destruct (running_now b); [|done].
    destruct (classify kws m (pkt b)) as [d m']. by rewrite IH.
Qed.

Lemma loop_ends_when_stopped_witness :
  running_now {| running_now := false; queue_ready := true; pkt := tcp_hello |}
  = false
  ∧ capture_loop "bob" [Text "example"] no_memo
      ([{| running_now := true; queue_ready := true; pkt := tcp_other_flow |}]
       ++ {| running_now := false; queue_ready := true; pkt := tcp_hello |}
       :: [{| running_now := true; queue_ready := true; pkt := tcp_hello |}])
    = [Reinject tcp_other_flow].
Proof.
  split; [reflexivity|].
  rewrite (loop_ends_when_stopped "bob" [Text "example"]
             [{| running_now := true; queue_ready := true;
                 pkt := tcp_other_flow |}]
             {| running_now := false; queue_ready := true; pkt := tcp_hello |}
             [{| running_now := true; queue_ready := true; pkt := tcp_hello |}]
             no_memo eq_refl).
  reflexivity.
Defined.

Lemma has_keyword_same (kws kws' : list string) pl :
  (∀ kw, kw ∈ kws ↔ kw ∈ kws') →
  has_keyword (texts kws) pl = has_keyword (texts kws') pl.
Proof.
  intros Hsame. apply eq_true_iff_eq. rewrite !has_keyword_texts.
  split; intros (kw & Hin & Hkw); exists kw; split; try done; by apply Hsame.
Qed.

Lemma same_members_nil (kws kws' : list string) :
  (∀ kw, kw ∈ kws ↔ kw ∈ kws') → texts kws = [] ↔ texts kws' = [].
Proof.
  intros Hsame. rewrite !texts_nil.
  destruct kws as [|k rest], kws' as [|k' rest']; try done.
  - pose proof (proj2 (Hsame k') (list_elem_of_here _ _)) as Hin.
    by apply elem_of_nil in Hin.
  - pose proof (proj1 (Hsame k) (list_elem_of_here _ _)) as Hin.
    by apply elem_of_nil in Hin.
Qed.

(** X5.  Among keyword lists whose entries are all strings that encode,
    only the set of keywords matters: two such lists with the same members,
    in any order and with any repetitions, make the loop do the same on
    every sequence of captured packets. *)
Theorem encodable_keywords_act_as_a_set (target : string)
  (kws kws' : list string) (cs : list capture) :
  ∀ m : memo,
  (∀ kw, kw ∈ kws ↔ kw ∈ kws') →
  capture_loop target (texts kws) m cs = capture_loop target (texts kws') m cs.
Proof.
  intros m Hsame. apply capture_loop_ext; [by apply same_members_nil|].
  intros pl. by apply has_keyword_same.
Qed.

Lemma encodable_keywords_act_as_a_set_witness :
  (∀ kw, kw ∈ ["plain"; "example"] ↔ kw ∈ ["example"; "plain"; "example"])
  ∧ capture_loop "bob" [Text "plain"; Text "example"] no_memo
      [{| running_now := true; queue_ready := true; pkt := tcp_hello |}]
    = capture_loop "bob" [Text "example"; Text "plain"; Text "example"] no_memo
        [{| running_now := true; queue_ready := true; pkt := tcp_hello |}].
Proof.
  assert (∀ kw, kw ∈ ["plain"; "example"]
                ↔ kw ∈ ["example"; "plain"; "example"]) as Hsame.
  { intros kw. rewrite !elem_of_cons, !elem_of_nil. tauto. }
  split; [exact Hsame|].
  exact (encodable_keywords_act_as_a_set "bob" ["plain"; "example"]
           ["example"; "plain"; "example"] _ no_memo Hsame).
Defined.

(** X6.  The two sets only grow: whatever packets the loop goes through,
    a flow or an address that is marked stays marked (there is no
    eviction). *)
Theorem marks_are_never_removed (kws : list keyword) (m : memo)
  (ps : list packet) :
  diverted_flows m ⊆ diverted_flows (memo_after kws m ps)
  ∧ diverted_ips m ⊆ diverted_ips (memo_after kws m ps).
Proof.
  split; intros x Hx; [by apply memo_after_flows | by apply memo_after_ips].
Qed.

(** X7.  In the sets the loop builds from empty, the destination of every
    marked flow is a marked address: the flow test of line 191 never
    diverts a packet that the address test would not divert. *)
Theorem marked_flow_has_marked_address (kws : list keyword) (ps : list packet)
  (p : packet) :
  flow_id p ∈ diverted_flows (memo_after kws no_memo ps) →
  dst_addr p ∈ diverted_ips (memo_after kws no_memo ps).
Proof.
  intros Hf.
  exact (memo_after_coherent kws ps no_memo no_memo_coherent (flow_id p) Hf).
Qed.

Lemma marked_flow_has_marked_address_witness :
  flow_id tcp_hello
  ∈ diverted_flows (memo_after [Text "example"] no_memo [tcp_hello])
  ∧ dst_addr tcp_hello
    ∈ diverted_ips (memo_after [Text "example"] no_memo [tcp_hello]).
Proof.
  assert (flow_id tcp_hello
          ∈ diverted_flows (memo_after [Text "example"] no_memo [tcp_hello]))
    as Hf by (vm_compute; set_solver).
  split; [exact Hf|].
  exact (marked_flow_has_marked_address [Text "example"] [tcp_hello] tcp_hello
           Hf).
Defined.

(** X8.  The loop acts on captured packets only, at most once each and in
    capture order: its effects are the concatenation, packet by packet, of
    what each pass does, and a pass does nothing or has exactly one effect,
    which is the re-injection of the packet of that pass as it was
    captured, the queueing of its request envelope for the given target,
    or the warning that the queue is not ready. *)
Theorem loop_effects_are_captured_packets (target : string)
  (kws : list keyword) (cs : list capture) :
  ∀ m : memo,
  ∃ passes : list (list action),
    capture_loop target kws m cs = concat passes
    ∧ (length passes ≤ length cs)%nat
    ∧ ∀ (i : nat) out,
        passes !! i = Some out →
        ∃ c, cs !! i = Some c
             ∧ (out = [] ∨ ∃ a, out = [a] ∧ effect_of target c a).
Proof.
  induction cs as [|c rest IH]; intros m.
  - exists []. split; [done|]. split; [done|]. intros i out Hi.
    by rewrite lookup_nil in Hi.
  - cbn [capture_loop]. destruct (running_now c).
    + destruct (classify kws m (pkt c)) as [d m'].
      destruct (IH m') as (passes & Heq & Hlen & Hpass).
      exists (dispose target c d :: passes).
      split; [by rewrite Heq|]. split; [simpl; lia|].
      intros [|i] out Hi; simpl in Hi.
      * injection Hi as <-. exists c. split; [done|].
        unfold effect_of. destruct d; simpl; [| by left |].
        -- right. eexists. split; [done | by left].
        -- right. destruct (queue_ready c); eexists; (split; [done|]);
             [right; by left | right; by right].
      * by apply Hpass.
    + exists []. split; [done|]. split; [simpl; lia|]. intros i out Hi.
      by rewrite lookup_nil in Hi.
Qed.

Example loop_effects_in_order :
  capture_loop "bob" [Text "example"] no_memo
    [{| running_now := true; queue_ready := true; pkt := tcp_other_flow |};
     {| running_now := true; queue_ready := true; pkt := quic |};
     {| running_now := true; queue_ready := false; pkt := tcp_hello |};
     {| running_now := true; queue_ready := true; pkt := tcp_hello |}]
  = concat [[Reinject tcp_other_flow]; []; [WarnNotReady];
            [Enqueue (request_envelope "bob" tcp_hello)]].
Proof. reflexivity. Qed.

Lemma has_keyword_unencodable (before : list string) (t : bool)
  (after : list keyword) pl :
  has_keyword (texts before ++ Unencodable t :: after) pl
  = has_keyword (texts before) pl.
Proof.
  induction before as [|k rest IH]; simpl; [done|]. by rewrite IH.
Qed.

(** X27.  A keyword whose [encode()] raises ends every scan that reaches
    it: the entries after it in the list are never compared with any
    payload, so the loop does on every sequence of captured packets what
    it does with the list cut off after that entry, and a payload is
    matched only by the keywords before it. *)
Theorem unencodable_keyword_hides_the_rest (target : string)
  (before : list string) (t : bool) (after : list keyword) (cs : list capture) :
  ∀ m : memo,
  capture_loop target (texts before ++ Unencodable t :: after) m cs
  = capture_loop target (texts before ++ [Unencodable t]) m cs
  ∧ ∀ pl, has_keyword (texts before ++ Unencodable t :: after) pl
          = has_keyword (texts before) pl.
Proof.
  intros m. split; [|intros pl; apply has_keyword_unencodable].
  apply capture_loop_ext.
  - by destruct before.
  - intros pl. by rewrite !has_keyword_unencodable.
Qed.

(** With such an entry in the list the order of the keywords matters. *)
Example keyword_order_matters :
  capture_loop "bob" [Unencodable true; Text "example"] no_memo
    [{| running_now := true; queue_ready := true; pkt := tcp_hello |}]
  = [Reinject tcp_hello]
  ∧ capture_loop "bob" [Text "example"; Unencodable true] no_memo
      [{| running_now := true; queue_ready := true; pkt := tcp_hello |}]
    = [Enqueue (request_envelope "bob" tcp_hello)].
Proof. split; reflexivity. Qed.

End CaptureMore.

(** ** More about the relay server *)

Module ServerMore.
Import Server Samples ServerFacts.

Lemma set_handler_sound s ws h reg :
  (∀ name w, reg !! name = Some w →
     (w = ws ∧ h = Serving name)
     ∨ (w ≠ ws ∧ handlers s !! w = Some (Serving name))) →
  registry_sound (set_handler ws h s reg).
Proof.
  intros H name w Hw. simpl in *.
  destruct (H name w Hw) as [[-> ->] | [Hne Hh]].
  - apply lookup_insert_eq.
  - by rewrite lookup_insert_ne.
Qed.

(** A registry entry is never about a connection whose handler is not
    serving. *)
Lemma sound_other s ws name w :
  registry_sound s →
  (∀ client_id, handlers s !! ws ≠ Some (Serving client_id)) →
  connected_clients s !! name = Some w →
  w ≠ ws ∧ handlers s !! w = Some (Serving name).
Proof.
  intros Hs Hws Hw. pose proof (Hs name w Hw) as Hh.
  split; [|done]. intros ->. by apply (Hws name).
Qed.

Lemma handler_sound clients s ws e :
  well_formed clients s → registry_sound s →
  registry_sound (handler clients s ws e).1.
Proof.
  intros [Hreg Hserving] Hs. unfold handler.
  destruct (handlers s !! ws) as [[|client_id|]|] eqn:Hh; destruct e; simpl;
    try done.
  - destruct (authenticate clients (connected_clients s) ws f)
      as [[reg h] out] eqn:Ha. simpl.
    apply set_handler_sound. intros name w Hw.
    assert (∀ id, handlers s !! ws ≠ Some (Serving id)) as Hnot
      by (intros id; by rewrite Hh).
    destruct h as [|client_id|].
    + rewrite (authenticate_other _ _ _ _ _ _ _ Ha) in Hw by done.
      right. by apply sound_other.
    + apply authenticate_serving in Ha as (-> & _ & _).
      destruct (decide (client_id = name)) as [<-|Hn].
      * rewrite lookup_insert_eq in Hw. left. split; congruence.
      * rewrite lookup_insert_ne in Hw by done. right. by apply sound_other.
    + rewrite (authenticate_other _ _ _ _ _ _ _ Ha) in Hw by done.
      right. by apply sound_other.
  - apply set_handler_sound. intros name w Hw. right.
    apply sound_other; [done | | done]. intros id. by rewrite Hh.
  - apply set_handler_sound. intros name w Hw. right.
    apply sound_other; [done | | done]. intros id. by rewrite Hh.
  - apply set_handler_sound. intros name w Hw. right.
    pose proof (finally_lookup _ _ _ _ Hw) as Hold.
    pose proof (Hs name w Hold) as Hserv. split; [|done].
    intros ->. rewrite Hh in Hserv. injection Hserv as <-.
    destruct (Hserving ws client_id Hh) as [Hne _].
    unfold finally in Hw. apply truthy_true in Hne. rewrite Hne, Hold in Hw.
    rewrite bool_decide_eq_true_2 in Hw by eauto. simpl in Hw.
    by rewrite lookup_delete_eq in Hw.
  - apply set_handler_sound. intros name w Hw. right.
    apply sound_other; [done | | done]. intros id. by rewrite Hh.
Qed.

Lemma run_sound clients evs : ∀ s,
  well_formed clients s → registry_sound s →
  registry_sound (run clients s evs).1.
Proof.
  induction evs as [|[ws e] rest IH]; intros s Hwf Hs; [done|].
  simpl. pose proof (handler_well_formed clients s ws e Hwf) as Hwf'.
  pose proof (handler_sound clients s ws e Hwf Hs) as Hs'.
  destruct (handler clients s ws e) as [s' out]. specialize (IH s' Hwf' Hs').
  by destruct (run clients s' rest) as [s'' out'].
Qed.

Lemma reachable_sound clients s : reachable clients s → registry_sound s.
Proof.
  intros Hr. pose proof Hr as [evs <-]. apply run_sound.
  - apply reachable_well_formed. by exists [].
  - intros name w H. simpl in H. by rewrite lookup_empty in H.
Qed.

Lemma dict_get_found {V : Type} (d : gmap string V) (key : option json)
  (v : V) :
  dict_get d key = Some (Some v) →
  ∃ k, key = Some (JString k) ∧ d !! k = Some v.
Proof.
  destruct key as [[k|[] t shown]|]; simpl; intros H; simplify_eq; eauto.
Qed.

(** X9.  A first message without a token, or with a token that the map
    does not bind, ends the handler and leaves the registry as it was;
    nothing that happens later registers the connection.  The connection
    is closed with the invalid-token code, and nothing else is sent,
    unless the token is an array or an object: the lookup of line 98 then
    raises, the [except] of line 143 takes it, and the handler returns
    without any close code. *)
Theorem unknown_token_rejected (clients : gmap string string) (s : server)
  (websocket : conn) (auth_data : json_object) :
  handlers s !! websocket = Some AwaitingAuth →
  (∀ token, auth_data !! "token" = Some (JString token) →
            clients !! token = None) →
  handler clients s websocket (Message (Object auth_data))
  = (set_handler websocket Finished s (connected_clients s),
     if unhashable (auth_data !! "token") then []
     else [Close websocket invalid_token_code "Invalid token"])
  ∧ ∀ evs name,
      connected_clients
        (run clients (set_handler websocket Finished s (connected_clients s))
           evs).1 !! name = Some websocket →
      connected_clients s !! name = Some websocket.
Proof.
  intros Hh Htok. split.
  - unfold handler, authenticate. rewrite Hh.
    destruct (auth_data !! "token") as [[token|[] t shown]|] eqn:Ht; simpl;
      try done.
    by rewrite (Htok token eq_refl).
  - intros evs name H.
    apply (run_keeps_finished clients websocket evs
             (set_handler websocket Finished s (connected_clients s)));
      [simpl; apply lookup_insert_eq | done].
Qed.

Lemma unknown_token_rejected_witness :
  handlers two_accepted !! 1%nat = Some AwaitingAuth
  ∧ (∀ token, auth "T9" "alice" !! "token" = Some (JString token) →
              tokens !! token = None)
  ∧ handler tokens two_accepted 1%nat (Message (Object (auth "T9" "alice")))
    = (set_handler 1%nat Finished two_accepted
         (connected_clients two_accepted),
       [Close 1%nat 4001 "Invalid token"]).
Proof.
  assert (∀ token, auth "T9" "alice" !! "token" = Some (JString token) →
                   tokens !! token = None) as Htok.
  { intros token Ht.
    assert (auth "T9" "alice" !! "token" = Some (JString "T9")) as H9
      by reflexivity.
    rewrite H9 in Ht. injection Ht as <-. reflexivity. }
  split; [reflexivity|]. split; [exact Htok|].
  exact (proj1 (unknown_token_rejected tokens two_accepted 1%nat
                  (auth "T9" "alice") eq_refl Htok)).
Defined.

(** A token that is an array: the handler returns and nothing is closed. *)
Example list_token_is_not_closed :
  handler tokens two_accepted 1%nat (Message (Object auth_with_list_token))
  = (set_handler 1%nat Finished two_accepted (connected_clients two_accepted),
     []).
Proof. reflexivity. Qed.

(** X10.  A connection that times out, closes, or sends something that is
    not a JSON object before it has authenticated gets no reply and no
    close code; its handler returns with the registry untouched, and
    nothing that happens later registers the connection. *)
Theorem failed_handshake_leaves_no_trace (clients : gmap string string)
  (s : server) (websocket : conn) (e : event) :
  handlers s !! websocket = Some AwaitingAuth →
  e = AuthTimeout ∨ e = ConnectionClosed
  ∨ (∃ f, e = Message f ∧ unreadable f = true) →
  handler clients s websocket e
  = (set_handler websocket Finished s (connected_clients s), [])
  ∧ ∀ evs name,
      connected_clients
        (run clients (set_handler websocket Finished s (connected_clients s))
           evs).1 !! name = Some websocket →
      connected_clients s !! name = Some websocket.
Proof.
  intros Hh He. split.
  - unfold handler. rewrite Hh.
    destruct He as [-> | [-> | (f & -> & Hf)]]; [done | done |].
    by destruct f.
  - intros evs name H.
    apply (run_keeps_finished clients websocket evs
             (set_handler websocket Finished s (connected_clients s)));
      [simpl; apply lookup_insert_eq | done].
Qed.

Lemma failed_handshake_leaves_no_trace_witness :
  handlers two_accepted !! 2%nat = Some AwaitingAuth
  ∧ (Message BadJson = AuthTimeout ∨ Message BadJson = ConnectionClosed
     ∨ ∃ f, Message BadJson = Message f ∧ unreadable f = true)
  ∧ handler tokens two_accepted 2%nat (Message BadJson)
    = (set_handler 2%nat Finished two_accepted
         (connected_clients two_accepted), []).
Proof.
  assert (Message BadJson = AuthTimeout ∨ Message BadJson = ConnectionClosed
          ∨ ∃ f, Message BadJson = Message f ∧ unreadable f = true) as He
    by (right; right; by exists BadJson).
  split; [reflexivity|]. split; [exact He|].
  exact (proj1 (failed_handshake_leaves_no_trace tokens two_accepted 2%nat
                  (Message BadJson) eq_refl He)).
Defined.

(** X11.  A first message whose token is bound to the claimed, non-empty
    name is answered with the authenticated status; the connection is
    registered under that name, its handler serves under it, and the
    entries of all other names are left as they were. *)
Theorem authentication_registers (clients : gmap string string) (s : server)
  (websocket : conn) (auth_data : json_object) (token name : string) :
  handlers s !! websocket = Some AwaitingAuth →
  auth_data !! "token" = Some (JString token) →
  auth_data !! "name" = Some (JString name) →
  clients !! token = Some name →
  name ≠ "" →
  ∃ s',
    handler clients s websocket (Message (Object auth_data))
    = (s', [Send websocket authenticated_reply])
    ∧ connected_clients s' !! name = Some websocket
    ∧ handlers s' !! websocket = Some (Serving name)
    ∧ ∀ other, other ≠ name →
               connected_clients s' !! other = connected_clients s !! other.
Proof.
  intros Hh Ht Hn Hc Hne.
  exists (set_handler websocket (Serving name) s
            (<[name := websocket]> (connected_clients s))).
  split; [|split; [|split]].
  - unfold handler. rewrite Hh.
    by rewrite (authenticate_ok clients _ websocket auth_data token name).
  - simpl. apply lookup_insert_eq.
  - simpl. apply lookup_insert_eq.
  - intros other Ho. simpl. by rewrite lookup_insert_ne.
Qed.

Lemma authentication_registers_witness :
  handlers two_accepted !! 2%nat = Some AwaitingAuth
  ∧ auth "T2" "bob" !! "token" = Some (JString "T2")
  ∧ auth "T2" "bob" !! "name" = Some (JString "bob")
  ∧ tokens !! "T2" = Some "bob"
  ∧ "bob" ≠ ""
  ∧ ∃ s',
      handler tokens two_accepted 2%nat (Message (Object (auth "T2" "bob")))
      = (s', [Send 2%nat authenticated_reply])
      ∧ connected_clients s' !! "bob" = Some 2%nat.
Proof.
  assert ("bob" ≠ "") as Hne by discriminate.
  do 4 (split; [reflexivity|]). split; [exact Hne|].
  destruct (authentication_registers tokens two_accepted 2%nat
              (auth "T2" "bob") "T2" "bob" eq_refl eq_refl eq_refl eq_refl Hne)
    as (s' & Hs & Hreg & _).
  exists s'. split; [exact Hs | exact Hreg].
Defined.

(** X12.  In every state the server can reach, a name in the registry is
    not empty, is bound by some token of the configuration, and belongs to
    a connection whose handler authenticated under that very name and has
    not returned: the registry holds no stale entry. *)
Theorem registry_holds_authenticated_sessions (clients : gmap string string)
  (s : server) (name : string) (websocket : conn) :
  reachable clients s →
  connected_clients s !! name = Some websocket →
  name ≠ ""
  ∧ handlers s !! websocket = Some (Serving name)
  ∧ ∃ token, clients !! token = Some name.
Proof.
  intros Hr Hw.
  destruct (reachable_well_formed clients s Hr) as [Hreg Hserving].
  pose proof (reachable_sound clients s Hr name websocket Hw) as Hh.
  split; [by apply (Hreg name websocket)|]. split; [done|].
  by apply (Hserving websocket name).
Qed.

Lemma registry_holds_authenticated_sessions_witness :
  reachable tokens two_sessions
  ∧ connected_clients two_sessions !! "bob" = Some 2%nat
  ∧ handlers two_sessions !! 2%nat = Some (Serving "bob")
  ∧ ∃ token, tokens !! token = Some "bob".
Proof.
  assert (reachable tokens two_sessions) as Hr by (by exists alice_and_bob).
  split; [exact Hr|]. split; [reflexivity|].
  exact (proj2 (registry_holds_authenticated_sessions tokens two_sessions
                  "bob" 2%nat Hr eq_refl)).
Defined.

(** X13.  The server sends messages to authenticated connections only:
    whatever a handler is resumed with in a reachable state, every message
    it sends goes to a connection whose handler is serving. *)
Theorem sends_only_to_authenticated (clients : gmap string string)
  (s : server) (websocket recipient : conn) (e : event) (msg : json_object) :
  reachable clients s →
  Send recipient msg ∈ (handler clients s websocket e).2 →
  ∃ client_id,
    handlers (handler clients s websocket e).1 !! recipient
    = Some (Serving client_id).
Proof.
  intros Hr Hin. pose proof (reachable_sound clients s Hr) as Hs.
  unfold handler in *.
  destruct (handlers s !! websocket) as [[|client_id|]|] eqn:Hh; destruct e;
    simpl in *; try (by apply elem_of_nil in Hin).
  - destruct (authenticate clients (connected_clients s) websocket f)
      as [[reg h] out] eqn:Ha. simpl in *.
    unfold authenticate in Ha. destruct f as [| |auth_data];
      try (injection Ha as <- <- <-; by apply elem_of_nil in Hin).
    destruct (dict_get clients (auth_data !! "token")) as [expected_name|];
      [|injection Ha as <- <- <-; by apply elem_of_nil in Hin].
    destruct (negb _).
    { injection Ha as <- <- <-. apply list_elem_of_singleton in Hin.
      discriminate. }
    case_bool_decide.
    { injection Ha as <- <- <-. apply list_elem_of_singleton in Hin.
      discriminate. }
    injection Ha as <- <- <-. apply list_elem_of_singleton in Hin.
    injection Hin as -> _. eexists. apply lookup_insert_eq.
  - unfold route in Hin. destruct f as [| |data];
      try (by apply elem_of_nil in Hin).
    destruct (truthy_json (data !! "target"));
      [|apply list_elem_of_singleton in Hin; injection Hin as -> _;
        by exists client_id].
    destruct (dict_get (connected_clients s) (data !! "target"))
      as [[target_ws|]|] eqn:Hlive.
    + apply list_elem_of_singleton in Hin. injection Hin as -> _.
      apply dict_get_found in Hlive as (target & _ & Hlive).
      exists target. by apply Hs.
    + apply list_elem_of_singleton in Hin. injection Hin as -> _.
      by exists client_id.
    + by apply elem_of_nil in Hin.
Qed.

Lemma sends_only_to_authenticated_witness :
  reachable tokens two_sessions
  ∧ Send 2%nat (<["sender" := JString "alice"]> to_bob)
    ∈ (handler tokens two_sessions 1%nat (Message (Object to_bob))).2
  ∧ ∃ client_id,
      handlers (handler tokens two_sessions 1%nat
                  (Message (Object to_bob))).1 !! 2%nat
      = Some (Serving client_id).
Proof.
  assert (reachable tokens two_sessions) as Hr by (by exists alice_and_bob).
  assert (Send 2%nat (<["sender" := JString "alice"]> to_bob)
          ∈ (handler tokens two_sessions 1%nat (Message (Object to_bob))).2)
    as Hin by (vm_compute; apply list_elem_of_here).
  split; [exact Hr|]. split; [exact Hin|].
  exact (sends_only_to_authenticated tokens two_sessions 1%nat 2%nat _ _
           Hr Hin).
Defined.

(** X14.  Frames that are not JSON objects, received from an
    authenticated session, are discarded one by one: nothing is sent, no
    state changes, the connection stays open, and what comes after them is
    handled as if they had never arrived. *)
Theorem unreadable_frames_are_skipped (clients : gmap string string)
  (s : server) (websocket : conn) (client_id : string) (fs : list frame)
  (rest : list (conn * event)) :
  handlers s !! websocket = Some (Serving client_id) →
  Forall (λ f, unreadable f = true) fs →
  run clients s (map (λ f, (websocket, Message f)) fs ++ rest)
  = run clients s rest.
Proof.
  intros Hh Hall. induction Hall as [|f fs Hf Hfs IH]; [done|].
  cbn [map app run].
  assert (handler clients s websocket (Message f) = (s, [])) as ->
    by (unfold handler; rewrite Hh; by destruct f).
  rewrite IH. by destruct (run clients s rest).
Qed.

Lemma unreadable_frames_are_skipped_witness :
  handlers two_sessions !! 1%nat = Some (Serving "alice")
  ∧ Forall (λ f, unreadable f = true) [BadJson; NotAnObject]
  ∧ run tokens two_sessions
      ([(1%nat, Message BadJson); (1%nat, Message NotAnObject)]
       ++ [(1%nat, Message (Object to_bob))])
    = run tokens two_sessions [(1%nat, Message (Object to_bob))].
Proof.
  assert (Forall (λ f, unreadable f = true) [BadJson; NotAnObject]) as Hall
    by (repeat constructor).
  split; [reflexivity|]. split; [exact Hall|].
  exact (unreadable_frames_are_skipped tokens two_sessions 1%nat "alice"
           [BadJson; NotAnObject] [(1%nat, Message (Object to_bob))]
           eq_refl Hall).
Defined.

(** X15.  When an authenticated connection closes, its handler returns
    without sending anything, the entry of its name is gone from the
    registry and the entries of all other names are left as they were. *)
Theorem disconnect_unregisters_own_name (clients : gmap string string)
  (s : server) (websocket : conn) (client_id : string) :
  reachable clients s →
  handlers s !! websocket = Some (Serving client_id) →
  ∃ s',
    handler clients s websocket ConnectionClosed = (s', [])
    ∧ handlers s' !! websocket = Some Finished
    ∧ connected_clients s' !! client_id = None
    ∧ ∀ other, other ≠ client_id →
               connected_clients s' !! other = connected_clients s !! other.
Proof.
  intros Hr Hh.
  destruct (reachable_well_formed clients s Hr) as [_ Hserving].
  destruct (Hserving websocket client_id Hh) as [Hne _].
  apply truthy_true in Hne.
  exists (set_handler websocket Finished s
            (finally client_id (connected_clients s))).
  split; [unfold handler; by rewrite Hh|].
  split; [simpl; apply lookup_insert_eq|].
  unfold finally. rewrite Hne. simpl.
  case_bool_decide as Hin.
  - split; [apply lookup_delete_eq|].
    intros other Ho. by rewrite lookup_delete_ne.
  - split; [|done].
    destruct (connected_clients s !! client_id) eqn:Hl; [|done].
    destruct Hin. eauto.
Qed.

Lemma disconnect_unregisters_own_name_witness :
  reachable tokens two_sessions
  ∧ handlers two_sessions !! 1%nat = Some (Serving "alice")
  ∧ ∃ s',
      handler tokens two_sessions 1%nat ConnectionClosed = (s', [])
      ∧ connected_clients s' !! "alice" = None
      ∧ connected_clients s' !! "bob" = Some 2%nat.
Proof.
  assert (reachable tokens two_sessions) as Hr by (by exists alice_and_bob).
  split; [exact Hr|]. split; [reflexivity|].
  destruct (disconnect_unregisters_own_name tokens two_sessions 1%nat "alice"
              Hr eq_refl) as (s' & Hs & _ & Hgone & Hothers).
  exists s'. split; [exact Hs|]. split; [exact Hgone|].
  etransitivity; [apply (Hothers "bob"); discriminate | reflexivity].
Defined.

End ServerMore.

(** ** More about the relay client *)

Module ClientMore.
Import Client Samples ClientFacts.

Lemma on_message_effects t f t' out :
  on_message t f = Some (t', out) →
  t' = t ∧ (out = [] ∨ out = [Log InjectionError]).
Proof.
  unfold on_message. destruct f as [| |data]; [done | done |].
  case_bool_decide as Ht; [apply handle_incoming_packet_effects|].
  intros [= <- <-]. split; [done | by left].
Qed.

Lemma on_message_no_injection t f t' out :
  on_message t f = Some (t', out) → t' = t ∧ Forall not_injection out.
Proof.
  intros H. apply on_message_effects in H as [-> [-> | ->]];
    (split; [done|]); [done|]. constructor; [|done]. intros d packet.
  discriminate.
Qed.

Lemma step_no_injection cfg c e :
  nat_table (step cfg c e).1 = nat_table c
  ∧ Forall not_injection (step cfg c e).2.
Proof.
  destruct c as [rn cb q t ph].
  destruct e; destruct ph as [| | |r s| |]; try destruct r; try destruct s;
    unfold step, on_exception, send_resume, join, loop_head, notify; simpl;
    try (destruct (on_message t f) as [[t' out]|] eqn:Hm; simpl;
         [apply on_message_no_injection in Hm as [-> Hout]; by split|]);
    repeat match goal with
           | |- context [if ?b then _ else _] => destruct b; simpl
           | |- context [match ?l with [] => _ | _ :: _ => _ end] =>
               destruct l; simpl
           end;
    (split; [done | by repeat constructor]).
Qed.

Lemma run_no_injection cfg evs : ∀ c,
  nat_table (run cfg c evs).1 = nat_table c
  ∧ Forall not_injection (run cfg c evs).2.
Proof.
  induction evs as [|e rest IH]; intros c; [by split|].
  destruct (step_no_injection cfg c e) as [Ht Hout].
  simpl. destruct (step cfg c e) as [c' out].
  destruct (IH c') as [Ht' Hout'].
  destruct (run cfg c' rest) as [c'' out']. simpl in *.
  split; [congruence | by apply Forall_app].
Qed.

Lemma response_logged (cfg : config) (c : client) (s : send_task)
  (data : json_object) (packet : bytes) :
  at_ c = Active Receiving s →
  data !! "type" = Some (JString "packet") →
  data !! "mode" = Some (JString "response") →
  data !! "payload" ≫= fromhex_json = Some packet →
  step cfg c (Received (Object data)) = (c, [Log InjectionError]).
Proof.
  intros Hat Htype Hmode Hdec.
  unfold step. rewrite Hat. unfold on_message, handle_incoming_packet.
  rewrite Htype.
  change (bool_decide (as_str (Some (JString "packet")) = Some "packet"))
    with true.
  cbv iota. rewrite Hdec, Hmode.
  change (bool_decide (as_str (Some (JString "response")) = Some "response"))
    with true.
  cbv iota. by rewrite with_nat_same.
Qed.

(** X16.  A response envelope whose payload is the hex coding of some
    bytes is decoded, but the bytes are not injected: the arguments of the
    [w.send] call of line 113 cannot be evaluated, the [except] of line
    130 logs an injection error, and the receive task goes on with nothing
    else changed.  Whatever the client receives, and whatever else
    happens, it never injects a packet, inbound or outbound. *)
Theorem response_is_not_injected (cfg : config) (c : client)
  (s : send_task) (data : json_object) (packet : bytes) :
  at_ c = Active Receiving s →
  data !! "type" = Some (JString "packet") →
  data !! "mode" = Some (JString "response") →
  data !! "payload" = Some (JString (Hex.hex packet)) →
  data !! "payload" ≫= fromhex_json = Some packet
  ∧ step cfg c (Received (Object data)) = (c, [Log InjectionError])
  ∧ ∀ evs d injected, Inject d injected ∉ (run cfg c evs).2.
Proof.
  intros Hat Htype Hmode Hpl.
  assert (data !! "payload" ≫= fromhex_json = Some packet) as Hdec
    by (rewrite Hpl; simpl; apply HexFacts.fromhex_hex).
  split; [done|]. split.
  - by apply (response_logged cfg c s data packet).
  - intros evs d injected Hin.
    destruct (run_no_injection cfg evs c) as [_ Hout].
    rewrite Forall_forall in Hout. by apply (Hout _ Hin d injected).
Qed.

Lemma response_is_not_injected_witness :
  at_ active_client = Active Receiving AwaitingQueue
  ∧ response_ok !! "type" = Some (JString "packet")
  ∧ response_ok !! "mode" = Some (JString "response")
  ∧ response_ok !! "payload"
    = Some (JString (Hex.hex (String "069" (String "000" ""))))
  ∧ step client_cfg active_client (Received (Object response_ok))
    = (active_client, [Log InjectionError]).
Proof.
  do 4 (split; [reflexivity|]).
  exact (proj1 (proj2 (response_is_not_injected client_cfg active_client
                         AwaitingQueue response_ok
                         (String "069" (String "000" ""))
                         eq_refl eq_refl eq_refl eq_refl))).
Defined.

(** X17.  What ends the receive task: a frame raises out of the loop body
    exactly when it is not valid JSON, is not a JSON object, or is a packet
    envelope whose payload is missing, is not a string or is not valid
    hex.  Every other frame, whatever its mode, is handled or ignored and
    the loop goes on. *)
Theorem receive_loop_breaking_frames (t : gmap (string * Z) (string * Z))
  (f : frame) :
  on_message t f = None
  ↔ f = BadJson ∨ f = NotAnObject
    ∨ ∃ data, f = Object data
              ∧ data !! "type" = Some (JString "packet")
              ∧ data !! "payload" ≫= fromhex_json = None.
Proof.
  unfold on_message, handle_incoming_packet. split.
  - destruct f as [| |data]; [by left | by right; left |].
    case_bool_decide as Ht; [|done]. apply as_str_Some in Ht.
    destruct (data !! "payload" ≫= fromhex_json) eqn:Hp.
    + by repeat case_bool_decide.
    + intros _. right; right. by exists data.
  - intros [-> | [-> | (data & -> & Ht & Hp)]]; [done | done |].
    apply as_str_Some in Ht. rewrite bool_decide_eq_true_2 by done.
    by rewrite Hp.
Qed.

Lemma step_harmless cfg c e :
  nat_table (step cfg c e).1 = nat_table c
  ∧ Forall harmless (step cfg c e).2.
Proof.
  destruct (step_no_injection cfg c e) as [Ht Hout]. split; [done|].
  eapply Forall_impl; [exact Hout|]. intros a Ha packet. apply Ha.
Qed.

(** X18.  The client never writes its NAT table and never injects a
    packet outbound: after any sequence of events the table is what it
    was, and no effect is an outbound injection. *)
Theorem nat_table_is_never_written (cfg : config) (evs : list event) :
  ∀ c : client,
  nat_table (run cfg c evs).1 = nat_table c
  ∧ ∀ packet, Inject Outbound packet ∉ (run cfg c evs).2.
Proof.
  induction evs as [|e rest IH]; intros c.
  - split; [done|]. intros packet H. by apply elem_of_nil in H.
  - destruct (step_harmless cfg c e) as [Ht Hout].
    simpl. destruct (step cfg c e) as [c' out].
    destruct (IH c') as [Ht' Hout'].
    destruct (run cfg c' rest) as [c'' out']. simpl in *.
    split; [congruence|]. intros packet Hin.
    apply elem_of_app in Hin as [Hin|Hin]; [|by apply (Hout' packet)].
    rewrite Forall_forall in Hout. by apply (Hout _ Hin packet).
Qed.


Lemma put_messages_cons e evs :
  put_messages (e :: evs) = put_messages [e] ++ put_messages evs.
Proof. by destruct e. Qed.




Lemma on_message_not_connect t f t' out :
  on_message t f = Some (t', out) → Forall not_connect out.
Proof.
  intros H. apply on_message_effects in H as [_ [-> | ->]];
    [done|]. constructor; [|done]. intros url. discriminate.
Qed.

Lemma step_stopped cfg c e :
  running c = false → e ≠ Start →
  running (step cfg c e).1 = false
  ∧ Forall not_connect (step cfg c e).2.
Proof.
  intros Hrun He. destruct c as [rn cb q t ph]. simpl in Hrun. subst rn.
  destruct e; try done; destruct ph as [| | |r s| |]; try destruct r; try destruct s;
    unfold step, on_exception, send_resume, join, loop_head, notify; simpl;
    try (destruct (on_message t f) as [[t' out]|] eqn:Hm; simpl;
         [apply on_message_not_connect in Hm; by split|]);
    repeat match goal with
           | |- context [if ?b then _ else _] => destruct b; simpl
           | |- context [match ?l with [] => _ | _ :: _ => _ end] =>
               destruct l; simpl
           end;
    (split; [done | by repeat constructor]).
Qed.

(** X20.  After [stop()], and as long as [start()] is not called again,
    the client never starts another connection attempt, whatever else
    happens: a pending wait ends in the exit of the loop, and a connection
    that ends is not replaced. *)
Theorem stopped_client_never_connects (cfg : config) (evs : list event) :
  ∀ c : client,
  running c = false →
  Start ∉ evs →
  running (run cfg c evs).1 = false
  ∧ ∀ url, Connect url ∉ (run cfg c evs).2.
Proof.
  induction evs as [|e rest IH]; intros c Hc Hstart.
  - split; [done|]. intros url H. by apply elem_of_nil in H.
  - apply not_elem_of_cons in Hstart as [He Hrest].
    destruct (step_stopped cfg c e Hc (not_eq_sym He)) as [Hc' Hout].
    simpl. destruct (step cfg c e) as [c' out].
    destruct (IH c' Hc' Hrest) as [Hc'' Hout'].
    destruct (run cfg c' rest) as [c'' out']. simpl in *.
    split; [done|]. intros url Hin.
    apply elem_of_app in Hin as [Hin|Hin]; [|by apply (Hout' url)].
    rewrite Forall_forall in Hout. by apply (Hout _ Hin url).
Qed.

Lemma stopped_client_never_connects_witness :
  running (stopped (goto active_client (Backoff 5))) = false
  ∧ (Start ∉ [Elapsed 5; ConnectFailed; Elapsed 5])
  ∧ ∀ url, Connect url
           ∉ (run client_cfg (stopped (goto active_client (Backoff 5)))
                [Elapsed 5; ConnectFailed; Elapsed 5]).2.
Proof.
  assert (Start ∉ [Elapsed 5; ConnectFailed; Elapsed 5]) as Hstart.
  { intros H. repeat (apply elem_of_cons in H as [H|H]; [discriminate|]).
    by apply elem_of_nil in H. }
  split; [reflexivity|]. split; [exact Hstart|].
  exact (proj2 (stopped_client_never_connects client_cfg
                  [Elapsed 5; ConnectFailed; Elapsed 5]
                  (stopped (goto active_client (Backoff 5))) eq_refl Hstart)).
Defined.

(** A [start()] during the wait undoes the [stop()]: when the wait is
    over the loop test of line 24 finds [self.running] true again and the
    client connects. *)
Example stop_then_start_reconnects :
  (run client_cfg (goto active_client (Backoff 5))
     [Stop; Elapsed 2; Start; Elapsed 3]).2
  = [Status false; Connect "wss://relay.example/ws"]
  ∧ (run client_cfg (goto active_client (Backoff 5))
       [Stop; Elapsed 2; Elapsed 3]).2 = [].
Proof. split; vm_compute; reflexivity. Qed.





(** X22.  From its start the client never gives up and never lengthens
    the wait: when every attempt fails, [n] failures have produced [n + 1]
    attempts, each failure reported to the status callback and followed by
    the same five seconds, and the client is attempting again. *)
Theorem connect_to_server_retries_forever (cfg : config) (callback : bool)
  (n : nat) :
  let told := if callback then [Status false] else [] in
  (connect_to_server cfg callback (failed_attempts n)).2
  = (told ++ [Connect (server_url cfg)])
    ++ concat (replicate n
                 ([Log ConnectionError] ++ told ++ [Sleep reconnect_delay]
                  ++ told ++ [Connect (server_url cfg)]))
  ∧ at_ (connect_to_server cfg callback (failed_attempts n)).1 = Connecting.
Proof.
  unfold connect_to_server, loop_head. cbn [running].
  rewrite retries_without_limit by reflexivity.
  split; reflexivity.
Qed.

(** X23.  The error envelope with which the server answers an unknown
    target has no effect on the client that receives it: nothing is
    logged, injected or sent, and the receive task goes on. *)
Theorem server_error_is_ignored (cfg : config) (c : client) (s : send_task)
  (target : option json) :
  at_ c = Active Receiving s →
  step cfg c (Received (Object (Server.error_envelope target))) = (c, []).
Proof.
  intros Hat. unfold step. rewrite Hat. unfold on_message.
  rewrite bool_decide_eq_false_2; [by rewrite with_nat_same|].
  unfold Server.error_envelope. rewrite lookup_insert_eq. discriminate.
Qed.

Lemma server_error_is_ignored_witness :
  at_ active_client = Active Receiving AwaitingQueue
  ∧ step client_cfg active_client
      (Received (Object (Server.error_envelope (Some (JString "carol")))))
    = (active_client, []).
Proof.
  split; [reflexivity|].
  exact (server_error_is_ignored client_cfg active_client AwaitingQueue
           (Some (JString "carol")) eq_refl).
Defined.





End ClientMore.

(** ** From capture to relay to injection *)

Module EndToEnd.
Import Samples.

Lemma route_live (clients : gmap string string) (s : Server.server)
  (websocket target_ws : Server.conn) (client_id target : string)
  (data : json_object) :
  Server.reachable clients s →
  Server.handlers s !! websocket = Some (Server.Serving client_id) →
  data !! "target" = Some (JString target) →
  Server.connected_clients s !! target = Some target_ws →
  Server.handler clients s websocket (Server.Message (Object data))
  = (s, [Server.Send target_ws (<["sender" := JString client_id]> data)]).
Proof.
  intros Hr Hh Ht Hlive.
  destruct (ServerFacts.reachable_well_formed clients s Hr) as [Hreg _].
  unfold Server.handler. rewrite Hh. unfold Server.route. rewrite Ht. simpl.
  pose proof (Hreg target target_ws Hlive) as Hne.
  apply truthy_true in Hne. by rewrite Hne, Hlive.
Qed.

(** X25.  A response is relayed but not injected: when an authenticated
    session sends a response envelope whose payload is the hex coding of a
    packet to a name with a live session, the server forwards it to that
    session's connection with the payload intact, and the client that
    receives the forwarded message decodes the packet, fails at the
    injection call of line 113, logs the injection error and goes on,
    without injecting anything. *)
Theorem response_is_relayed_not_injected (clients : gmap string string)
  (s : Server.server) (websocket target_ws : Server.conn)
  (client_id target : string) (data : json_object) (packet : bytes)
  (cfg : Client.config) (c : Client.client) (st : Client.send_task) :
  Server.reachable clients s →
  Server.handlers s !! websocket = Some (Server.Serving client_id) →
  data !! "target" = Some (JString target) →
  Server.connected_clients s !! target = Some target_ws →
  data !! "type" = Some (JString "packet") →
  data !! "mode" = Some (JString "response") →
  data !! "payload" = Some (JString (Hex.hex packet)) →
  Client.at_ c = Client.Active Client.Receiving st →
  ∃ forwarded,
    Server.handler clients s websocket (Server.Message (Object data))
    = (s, [Server.Send target_ws forwarded])
    ∧ forwarded !! "payload" ≫= Client.fromhex_json = Some packet
    ∧ Client.step cfg c (Client.Received (Object forwarded))
      = (c, [Client.Log Client.InjectionError]).
Proof.
  intros Hr Hh Ht Hlive Htype Hmode Hpl Hat.
  exists (<["sender" := JString client_id]> data).
  assert (<["sender" := JString client_id]> data !! "payload"
            ≫= Client.fromhex_json = Some packet) as Hdec.
  { rewrite lookup_insert_ne by done. rewrite Hpl. simpl.
    apply HexFacts.fromhex_hex. }
  split; [by apply (route_live _ _ _ _ _ target)|]. split; [done|].
  apply (ClientMore.response_logged cfg c st _ packet); [done | | | done];
    by rewrite lookup_insert_ne.
Qed.

Lemma response_is_relayed_not_injected_witness :
  Server.reachable tokens two_sessions
  ∧ Server.handlers two_sessions !! 2%nat = Some (Server.Serving "bob")
  ∧ response_ok !! "target" = Some (JString "alice")
  ∧ Server.connected_clients two_sessions !! "alice" = Some 1%nat
  ∧ ∃ forwarded,
      Server.handler tokens two_sessions 2%nat
        (Server.Message (Object response_ok))
      = (two_sessions, [Server.Send 1%nat forwarded])
      ∧ forwarded !! "payload" ≫= Client.fromhex_json
        = Some (String "069" (String "000" ""))
      ∧ Client.step client_cfg active_client (Client.Received (Object forwarded))
        = (active_client, [Client.Log Client.InjectionError]).
Proof.
  assert (Server.reachable tokens two_sessions) as Hr
    by (by exists alice_and_bob).
  split; [exact Hr|]. do 3 (split; [reflexivity|]).
  exact (response_is_relayed_not_injected tokens two_sessions 2%nat 1%nat
           "bob" "alice" response_ok (String "069" (String "000" ""))
           client_cfg active_client Client.AwaitingQueue
           Hr eq_refl eq_refl eq_refl eq_refl eq_refl eq_refl eq_refl).
Defined.

(** X26.  A diverted packet reaches the rule's target: the capture loop
    queues its request envelope, the idle send task hands that envelope to
    the websocket at once, and the server forwards it to the connection
    registered under the target, with the sender's authenticated name
    added and a payload that still decodes to the captured bytes. *)
Theorem diverted_packet_reaches_target (target : string)
  (kws : list Capture.keyword)
  (m m' : Capture.memo) (cap : Capture.capture)
  (cfg : Client.config) (c : Client.client) (r : Client.recv_task)
  (clients : gmap string string) (s : Server.server)
  (websocket target_ws : Server.conn) (client_id : string) :
  Capture.running_now cap = true →
  Capture.queue_ready cap = true →
  Capture.classify kws m (Capture.pkt cap) = (Capture.Divert, m') →
  Client.at_ c = Client.Active r Client.AwaitingQueue →
  Client.packet_queue c = [] →
  Server.reachable clients s →
  Server.handlers s !! websocket = Some (Server.Serving client_id) →
  Server.connected_clients s !! target = Some target_ws →
  ∃ envelope forwarded,
    Capture.capture_loop target kws m [cap] = [Capture.Enqueue envelope]
    ∧ (Client.step cfg c (Client.Put envelope)).2 = [Client.WsSend envelope]
    ∧ Server.handler clients s websocket (Server.Message (Object envelope))
      = (s, [Server.Send target_ws forwarded])
    ∧ forwarded !! "sender" = Some (JString client_id)
    ∧ forwarded !! "mode" = Some (JString "request")
    ∧ forwarded !! "payload" ≫= Client.fromhex_json
      = Some (Capture.raw (Capture.pkt cap)).
Proof.
  intros Hrun Hready Hdiv Hat Hq Hr Hh Hlive.
  destruct (CaptureMore.envelope_fields target (Capture.pkt cap))
    as (Hpl & Htarget & _ & Hmode & _).
  exists (Capture.request_envelope target (Capture.pkt cap)),
         (<["sender" := JString client_id]>
            (Capture.request_envelope target (Capture.pkt cap))).
  split; [|split; [|split; [|split; [|split]]]].
  - cbn [Capture.capture_loop]. rewrite Hrun, Hdiv. simpl. by rewrite Hready.
  - unfold Client.step. by rewrite Hat, Hq.
  - by apply (route_live _ _ _ _ _ target).
  - apply lookup_insert_eq.
  - by rewrite lookup_insert_ne.
  - by rewrite lookup_insert_ne.
Qed.

Lemma diverted_packet_reaches_target_witness :
  Capture.classify [Capture.Text "example"] Capture.no_memo tcp_hello
  = (Capture.Divert, marked)
  ∧ Client.at_ active_client = Client.Active Client.Receiving Client.AwaitingQueue
  ∧ Client.packet_queue active_client = []
  ∧ Server.reachable tokens two_sessions
  ∧ Server.handlers two_sessions !! 1%nat = Some (Server.Serving "alice")
  ∧ Server.connected_clients two_sessions !! "bob" = Some 2%nat
  ∧ ∃ envelope forwarded,
      Capture.capture_loop "bob" [Capture.Text "example"] Capture.no_memo
        [{| Capture.running_now := true; Capture.queue_ready := true;
            Capture.pkt := tcp_hello |}]
      = [Capture.Enqueue envelope]
      ∧ Server.handler tokens two_sessions 1%nat
          (Server.Message (Object envelope))
        = (two_sessions, [Server.Send 2%nat forwarded])
      ∧ forwarded !! "payload" ≫= Client.fromhex_json = Some "E".
Proof.
  assert (Server.reachable tokens two_sessions) as Hr
    by (by exists alice_and_bob).
  do 3 (split; [reflexivity|]). split; [exact Hr|].
  do 2 (split; [reflexivity|]).
  destruct (diverted_packet_reaches_target "bob" [Capture.Text "example"]
              Capture.no_memo marked
              {| Capture.running_now := true; Capture.queue_ready := true;
                 Capture.pkt := tcp_hello |}
              client_cfg active_client Client.Receiving
              tokens two_sessions 1%nat 2%nat "alice"
              eq_refl eq_refl eq_refl eq_refl eq_refl Hr eq_refl eq_refl)
    as (envelope & forwarded & Hq & _ & Hfwd & _ & _ & Hpl).
  exists envelope, forwarded. split; [exact Hq|]. split; [exact Hfwd|].
  exact Hpl.
Defined.

End EndToEnd.
